(** * Audio-Processing-Lab: the DSP effects of [backend/services/audio_effects.py]
    and the dispatcher of [backend/services/audio_pipeline.py]

    Samples are modelled as real numbers: [+], [*], [/], [abs], [max], [sin],
    [sqrt] and [**] are the exact operations on [R], so every statement about
    sample values is a statement in exact arithmetic (no float32/float64
    rounding, no nan, no inf).  The one place where rounding decides what
    the code returns is the conversion of a time to a sample index in
    [trim_audio]: there the times, the duration and the products are the
    float64 values of the code, rounded by [round_float64].  Python integers
    are [Z].  A NumPy array is a list (one axis) or a list of rows (two axes,
    shape [(channels, samples)]).  Python exceptions are values of [exn],
    carried by the error monad [result]. *)

From Stdlib Require Import Reals Lra Lia ZArith Bool.
From Stdlib Require String.
Import String.StringSyntax.
Local Delimit Scope string_scope with string.
From Stdlib Require Import List.
Import ListNotations.
Local Open Scope R_scope.

(** ** Exceptions and the error monad *)

Inductive exn : Type :=
| ZeroSizeReduction       (* ValueError: np.max of an array without elements *)
| NegativeDimensions      (* ValueError: np.zeros of a negative length *)
| BroadcastError          (* ValueError: operands could not be broadcast together *)
| IndexError              (* signal[1] on an array with fewer than two rows *)
| ZeroDivisionError       (* int / int with a zero divisor *)
| StartNegative           (* ValueError("start_time must be >= 0") *)
| EndExceedsDuration (end_time duration : R)
                          (* ValueError("end_time (..s) exceeds duration (..s)") *)
| StartNotBeforeEnd       (* ValueError("start_time must be less than end_time") *)
| ValidationError (field : String.string)
                          (* pydantic: a field outside its ge/le/gt bound *)
.

Inductive result (A : Type) : Type :=
| Ok (a : A)
| Raise (e : exn).
Arguments Ok {A} a.
Arguments Raise {A} e.

Definition bind {A B : Type} (c : result A) (k : A -> result B) : result B :=
  match c with
  | Ok a => k a
  | Raise e => Raise e
  end.

Notation "x <- c ;; k" := (bind c (fun x => k))
  (at level 61, c at next level, right associativity).

(** [for x in xs: acc = body(x, acc)], stopping at the first exception. *)
Fixpoint for_each {A S : Type} (xs : list A) (body : A -> S -> result S) (acc : S)
  : result S :=
  match xs with
  | [] => Ok acc
  | x :: xs' => acc' <- body x acc ;; for_each xs' body acc'
  end.

(** ** Python numbers *)

(** [int(x)] on a float: truncation toward zero. *)
Definition py_int (x : R) : Z :=
  if Rle_dec 0 x then Zfloor x else Zceil x.

(** The nearest integer, a tie going to the even one. *)
Definition nearest_even (x : R) : Z :=
  let f := Zfloor x in
  if Rlt_dec (x - IZR f) (1 / 2) then f
  else if Rgt_dec (x - IZR f) (1 / 2) then (f + 1)%Z
  else if Z.even f then f else (f + 1)%Z.

(** The binary exponent of a non-zero real: the [e] with
    [2^(e-1) <= |x| < 2^e]. *)
Definition binary_exponent (x : R) : Z :=
  (Zfloor (ln (Rabs x) / ln 2) + 1)%Z.

(** The float64 nearest to a real (IEEE 754 binary64, round to nearest, ties
    to even): a mantissa of 53 bits at the binary exponent of [x].  Overflow
    and subnormal numbers are not modelled; times and sample counts are far
    from both. *)
Definition round_float64 (x : R) : R :=
  if Req_dec_T x 0 then 0
  else let e := binary_exponent x in
       IZR (nearest_even (x * powerRZ 2 (53 - e))) * powerRZ 2 (e - 53).

(** The relative error of one rounding is at most [2^-53]. *)
Definition eps64 : R := / 9007199254740992.

(** A number held in a Python [float]: the float64 nearest to it (a float64
    is left as it is). *)
Definition py_float (x : R) : R := round_float64 x.

(** [x * y] on two floats: the float64 nearest to the product. *)
Definition float_mul (x y : R) : R := round_float64 (x * y).

(** An int in a float operation: the float64 nearest to it (the int itself
    below [2^53]). *)
Definition int_to_float (n : Z) : R := round_float64 (IZR n).

(** [a / b] on two Python ints: true division, the float64 nearest to the
    quotient; [ZeroDivisionError] on [b = 0]. *)
Definition int_truediv (a b : Z) : result R :=
  if Z.eqb b 0 then Raise ZeroDivisionError else Ok (round_float64 (IZR a / IZR b)).

(** [range(lo, hi)]. *)
Definition py_range (lo hi : Z) : list Z :=
  map (fun k => (lo + Z.of_nat k)%Z) (seq 0 (Z.to_nat (hi - lo))).

(** ** NumPy arrays *)

Inductive ndarray : Type :=
| Mono (samples : list R)            (* ndim == 1, shape (samples,) *)
| Multi (channels : list (list R)).  (* ndim == 2, shape (channels, samples) *)

(** The rows of a two-axis array all have the same length. *)
Definition rect (n : nat) (rows : list (list R)) : Prop :=
  Forall (fun r => length r = n) rows.

Definition well_formed (s : ndarray) : Prop :=
  match s with
  | Mono _ => True
  | Multi rows => exists n, rect n rows
  end.

(** All the elements of an array, row by row. *)
Definition flat (s : ndarray) : list R :=
  match s with
  | Mono v => v
  | Multi rows => concat rows
  end.

(** [signal.shape[-1]]: the number of samples per channel. *)
Definition num_samples (s : ndarray) : nat :=
  match s with
  | Mono v => length v
  | Multi rows => length (hd [] rows)
  end.

Definition num_channels (s : ndarray) : nat :=
  match s with
  | Mono _ => 1
  | Multi rows => length rows
  end.

(** [f] applied to every element, whatever the shape. *)
Definition map_array (f : R -> R) (s : ndarray) : ndarray :=
  match s with
  | Mono v => Mono (map f v)
  | Multi rows => Multi (map (map f) rows)
  end.

(** [np.abs(a)]. *)
Definition np_abs (s : ndarray) : ndarray := map_array Rabs s.

(** [a * k] with a scalar [k]. *)
Definition scale (s : ndarray) (k : R) : ndarray := map_array (fun x => x * k) s.

(** [np.max(a)]: the largest element; a [ValueError] on an array without
    elements (a reduction with no identity). *)
Definition np_max (s : ndarray) : result R :=
  match flat s with
  | [] => Raise ZeroSizeReduction
  | x :: xs => Ok (fold_left Rmax xs x)
  end.

(** Element-wise binary operation on two one-axis arrays of equal length. *)
Fixpoint map2 (f : R -> R -> R) (a b : list R) : list R :=
  match a, b with
  | x :: a', y :: b' => f x y :: map2 f a' b'
  | _, _ => []
  end.

(** [np.zeros(n)]. *)
Definition np_zeros (n : Z) : result (list R) :=
  if (n <? 0)%Z then Raise NegativeDimensions else Ok (repeat 0 (Z.to_nat n)).

(** Python's slice bounds: a negative index counts from the end, and every
    index is clamped to [0, len]. *)
Definition slice_index (len i : Z) : Z :=
  if (i <? 0)%Z then Z.max 0 (i + len) else Z.min i len.

Definition slice_lo (len : Z) (start : option Z) : Z :=
  match start with None => 0%Z | Some i => slice_index len i end.

Definition slice_hi (len : Z) (stop : option Z) : Z :=
  match stop with None => len | Some i => slice_index len i end.

(** [a[start:stop]]. *)
Definition py_slice {A : Type} (a : list A) (start stop : option Z) : list A :=
  let len := Z.of_nat (length a) in
  let lo := slice_lo len start in
  let hi := slice_hi len stop in
  firstn (Z.to_nat (hi - lo)) (skipn (Z.to_nat lo) a).

(** NumPy broadcasting of a one-axis value to [n] elements: the value has
    [n] elements, or one element that is repeated. *)
Definition broadcast_to (n : nat) (v : list R) : result (list R) :=
  if Nat.eqb (length v) n then Ok v
  else match v with
       | [x] => Ok (repeat x n)
       | _ => Raise BroadcastError
       end.

(** [a[start:stop] = f(a[start:stop], v)] element-wise: [f] is
    [fun _ y => y] for an assignment and [Rplus] for [+=]. *)
Definition slice_update (f : R -> R -> R) (a : list R) (start stop : option Z)
    (v : list R) : result (list R) :=
  let len := Z.of_nat (length a) in
  let lo := Z.to_nat (slice_lo len start) in
  let n := Z.to_nat (slice_hi len stop - slice_lo len start) in
  v' <- broadcast_to n v ;;
  Ok (firstn lo a ++ map2 f (firstn n (skipn lo a)) v' ++ skipn (lo + n) a).

(** The same on the second axis of a two-axis array, [a[:, start:stop]],
    with a value of as many rows. *)
Fixpoint slice_update_rows (f : R -> R -> R) (a : list (list R))
    (start stop : option Z) (v : list (list R)) : result (list (list R)) :=
  match a, v with
  | r :: a', w :: v' =>
      r' <- slice_update f r start stop w ;;
      rest <- slice_update_rows f a' start stop v' ;;
      Ok (r' :: rest)
  | _, _ => Ok []
  end.

(** ** Normalisation (shared utility) *)

Definition peak_normalize (signal : ndarray) (target_peak : R) : result ndarray :=
  peak <- np_max (np_abs signal) ;;
  if Req_dec_T peak 0 then Ok signal
  else Ok (scale signal (target_peak / peak)).

(** The default [target_peak = 0.95]. *)
Definition default_target_peak : R := 95 / 100.

(** ** 1. Reverse *)

Definition reverse_audio (signal : ndarray) (sr : Z) : ndarray :=
  match signal with
  | Mono v => Mono (rev v)                  (* signal[::-1].copy() *)
  | Multi rows => Multi (map (@rev R) rows) (* signal[:, ::-1].copy() *)
  end.

(** ** External transforms

    [librosa.effects.pitch_shift] and [scipy.signal.sosfilt] are library code
    outside this repository: the effects that call them are stated over any
    implementation of this interface. *)

Class DSPBackend : Type := {
  (* librosa.effects.pitch_shift(y=, sr=, n_steps=) on one channel *)
  librosa_pitch_shift : list R -> Z -> R -> list R;
  (* scipy.signal.sosfilt(sos, x) on one channel *)
  sosfilt : list (list R) -> list R -> list R
}.

(** ** 2. Pitch shift *)

Definition pitch_shift `{DSPBackend} (signal : ndarray) (sr : Z) (semitones : R)
  : result ndarray :=
  let shifted :=
    match signal with
    | Mono v => Mono (librosa_pitch_shift v sr semitones)
    | Multi rows => Multi (map (fun ch => librosa_pitch_shift ch sr semitones) rows)
    end in
  peak_normalize shifted default_target_peak.

(** ** 3. Reverb (echo-based) *)

(** [int(sr * delay_ms / 1000)]. *)
Definition delay_in_samples (sr delay_ms : Z) : Z :=
  py_int (IZR (sr * delay_ms) / 1000).

Definition num_reflections : Z := 5.

(** One turn of the loop [for i in range(1, num_reflections + 1)] on one
    channel: [output[offset:end] += signal[: end - offset] * gain]. *)
Definition add_reflection (signal : list R) (decay : R) (delay_samples out_length : Z)
    (i : Z) (output : list R) : result (list R) :=
  let len := Z.of_nat (length signal) in
  let offset := (delay_samples * i)%Z in
  let gain := powerRZ decay i in
  let end_ := (offset + len)%Z in
  let end_ := if (end_ >? out_length)%Z then out_length else end_ in
  slice_update Rplus output (Some offset) (Some end_)
    (map (fun x => x * gain) (py_slice signal None (Some (end_ - offset)%Z))).

(** The same turn on a two-axis array:
    [output[:, offset:end] += signal[:, : end - offset] * gain]. *)
Definition add_reflection_rows (signal : list (list R)) (length : Z) (decay : R)
    (delay_samples out_length : Z) (i : Z) (output : list (list R))
  : result (list (list R)) :=
  let offset := (delay_samples * i)%Z in
  let gain := powerRZ decay i in
  let end_ := (offset + length)%Z in
  let end_ := if (end_ >? out_length)%Z then out_length else end_ in
  slice_update_rows Rplus output (Some offset) (Some end_)
    (map (fun r => map (fun x => x * gain) (py_slice r None (Some (end_ - offset)%Z)))
         signal).

(** The array built by [reverb] before its final [peak_normalize]. *)
Definition reverb_mix (signal : ndarray) (sr : Z) (decay : R) (delay_ms : Z)
  : result ndarray :=
  let delay_samples := delay_in_samples sr delay_ms in
  match signal with
  | Mono v =>
      let out_length := (Z.of_nat (length v) + delay_samples * num_reflections)%Z in
      output <- np_zeros out_length ;;
      output <- slice_update (fun _ y => y) output None (Some (Z.of_nat (length v))) v ;;
      output <- for_each (py_range 1 (num_reflections + 1))
                  (add_reflection v decay delay_samples out_length) output ;;
      Ok (Mono output)
  | Multi rows =>
      let length := Z.of_nat (num_samples signal) in
      let out_length := (length + delay_samples * num_reflections)%Z in
      zero_row <- np_zeros out_length ;;
      let output := map (fun _ => zero_row) rows in
      output <- slice_update_rows (fun _ y => y) output None (Some length) rows ;;
      output <- for_each (py_range 1 (num_reflections + 1))
                  (add_reflection_rows rows length decay delay_samples out_length)
                  output ;;
      Ok (Multi output)
  end.

Definition reverb (signal : ndarray) (sr : Z) (decay : R) (delay_ms : Z)
  : result ndarray :=
  output <- reverb_mix signal sr decay delay_ms ;;
  peak_normalize output default_target_peak.

(** ** 4. Stereo widening *)

(** [np.stack([signal, signal.copy()], axis=0)] when [signal.ndim == 1]. *)
Definition ensure_stereo (signal : ndarray) : list (list R) :=
  match signal with
  | Mono v => [v; v]
  | Multi rows => rows
  end.

(** [signal[i]] on a two-axis array. *)
Definition row (rows : list (list R)) (i : nat) : result (list R) :=
  match nth_error rows i with
  | Some r => Ok r
  | None => Raise IndexError
  end.

(** [10 ** (-gain_diff_db / 20)]. *)
Definition gain_factor (gain_diff_db : R) : R := Rpower 10 (- gain_diff_db / 20).

(** The array built by [stereo_widen] before its final [peak_normalize]. *)
Definition stereo_widen_mix (signal : ndarray) (sr : Z) (delay_ms : Z)
    (gain_diff_db : R) : result ndarray :=
  let signal := ensure_stereo signal in
  let delay_samples := delay_in_samples sr delay_ms in
  left <- row signal 0 ;;
  right <- row signal 1 ;;
  zeros <- np_zeros delay_samples ;;
  let right_delayed := zeros ++ right in
  let left_padded := left ++ zeros in
  let right_delayed := map (fun x => x * gain_factor gain_diff_db) right_delayed in
  let mid := map (fun x => x / 2) (map2 Rplus left_padded right_delayed) in
  let side := map (fun x => x / 2) (map2 Rminus left_padded right_delayed) in
  let side := map (fun x => x * (13 / 10)) side in
  let new_left := map2 Rplus mid side in
  let new_right := map2 Rminus mid side in
  Ok (Multi [new_left; new_right]).

Definition stereo_widen (signal : ndarray) (sr : Z) (delay_ms : Z) (gain_diff_db : R)
  : result ndarray :=
  output <- stereo_widen_mix signal sr delay_ms gain_diff_db ;;
  peak_normalize output default_target_peak.

(** ** 5. Trim *)

(** [start_time] and [end_time] are Python floats: whatever number the caller
    wrote, the function receives the float64 nearest to it.  The duration
    and the two products are float64 values too ([sr], an int, is converted
    for the product), and [int()] truncates them. *)
Definition trim_audio (signal : ndarray) (sr : Z) (start_time : R)
    (end_time : option R) : result ndarray :=
  let start_time := py_float start_time in
  let end_time := option_map py_float end_time in
  let total_samples := num_samples signal in
  duration <- int_truediv (Z.of_nat total_samples) sr ;;
  let end_time := match end_time with None => duration | Some e => e end in
  if Rlt_dec start_time 0 then Raise StartNegative
  else if Rgt_dec end_time duration then Raise (EndExceedsDuration end_time duration)
  else if Rge_dec start_time end_time then Raise StartNotBeforeEnd
  else
    let start_sample := py_int (float_mul start_time (int_to_float sr)) in
    let end_sample := py_int (float_mul end_time (int_to_float sr)) in
    match signal with
    | Mono v => Ok (Mono (py_slice v (Some start_sample) (Some end_sample)))
    | Multi rows =>
        Ok (Multi (map (fun r => py_slice r (Some start_sample) (Some end_sample)) rows))
    end.

(** ** 6. 8D audio (auto-panning) *)

(** The crossfeed step, on the two panned channels. *)
Definition crossfeed_step (crossfeed : R) (left_out right_out : list R)
  : list R * list R :=
  if Rgt_dec crossfeed 0 then
    let left_out :=
      map2 Rplus (map (fun x => x * (1 - crossfeed)) left_out)
                 (map (fun x => x * crossfeed) right_out) in
    let right_out :=
      map2 Rplus (map (fun x => x * (1 - crossfeed)) right_out)
                 (map (fun x => x * crossfeed) left_out) in
    (left_out, right_out)
  else (left_out, right_out).

(** The two panned channels, before the crossfeed. *)
Definition eight_d_pan (signal : list (list R)) (sr : Z) (pan_speed_hz intensity : R)
  : result (list R * list R) :=
  let num_samples := length (hd [] signal) in
  let t := map (fun n => INR n / IZR sr) (seq 0 num_samples) in
  let pan_curve := map (fun t => 1 / 2 + 1 / 2 * sin (2 * PI * pan_speed_hz * t)) t in
  let pan_curve := map (fun c => 1 / 2 + intensity * (c - 1 / 2)) pan_curve in
  let right_gain := map sqrt pan_curve in
  let left_gain := map (fun c => sqrt (1 - c)) pan_curve in
  s0 <- row signal 0 ;;
  s1 <- row signal 1 ;;
  let mono_mix := map (fun x => x / 2) (map2 Rplus s0 s1) in
  let left_out := map2 Rmult mono_mix left_gain in
  let right_out := map2 Rmult mono_mix right_gain in
  Ok (left_out, right_out).

(** The array built by [eight_d_audio] before its final [peak_normalize]. *)
Definition eight_d_mix (signal : ndarray) (sr : Z)
    (pan_speed_hz intensity crossfeed : R) : result ndarray :=
  let signal := ensure_stereo signal in
  panned <- eight_d_pan signal sr pan_speed_hz intensity ;;
  let (left_out, right_out) := crossfeed_step crossfeed (fst panned) (snd panned) in
  Ok (Multi [left_out; right_out]).

Definition eight_d_audio (signal : ndarray) (sr : Z)
    (pan_speed_hz intensity crossfeed : R) : result ndarray :=
  output <- eight_d_mix signal sr pan_speed_hz intensity crossfeed ;;
  peak_normalize output default_target_peak.

(** ** 7. Equalizer (parametric biquad) *)

(** A Python [dict] from names to numbers, in insertion order. *)
Definition dict : Type := list (String.string * R).

Fixpoint dict_lookup (d : dict) (key : String.string) : option R :=
  match d with
  | [] => None
  | (k, v) :: d' => if String.eqb k key then Some v else dict_lookup d' key
  end.

(** [d.get(key, default)]. *)
Definition dict_get (d : dict) (key : String.string) (default : R) : R :=
  match dict_lookup d key with
  | Some v => v
  | None => default
  end.

(** Standard EQ band centre frequencies. *)
Definition BANDS : dict :=
  [ ("sub_bass"%string, 60);
    ("bass"%string, 170);
    ("low_mid"%string, 500);
    ("mid"%string, 1000);
    ("high_mid"%string, 3000);
    ("presence"%string, 6000);
    ("brilliance"%string, 12000) ].

(** Design a peaking EQ second-order section. *)
Definition _peaking_eq_sos (freq gain_db q : R) (fs : Z) : list R :=
  let A := Rpower 10 (gain_db / 40) in
  let w0 := 2 * PI * freq / IZR fs in
  let alpha := sin w0 / (2 * q) in
  let b0 := 1 + alpha * A in
  let b1 := -2 * cos w0 in
  let b2 := 1 - alpha * A in
  let a0 := 1 + alpha / A in
  let a1 := -2 * cos w0 in
  let a2 := 1 - alpha / A in
  [b0 / a0; b1 / a0; b2 / a0; 1; a1 / a0; a2 / a0].

(** One turn of the loop over [BANDS.items()]: a band whose gain is flat, or
    whose centre frequency is at or above Nyquist, adds no section. *)
Definition add_band (band_gains_db : dict) (sr : Z)
    (sos_sections : list (list R)) (band : String.string * R) : list (list R) :=
  let (band_name, centre_freq) := band in
  let gain := dict_get band_gains_db band_name 0 in
  if Rlt_dec (Rabs gain) (1 / 100) then sos_sections
  else if Rge_dec centre_freq (IZR sr / 2) then sos_sections
  else sos_sections ++ [_peaking_eq_sos centre_freq gain (14 / 10) sr].

(** Build cascaded SOS array. *)
Definition build_sos_sections (band_gains_db : dict) (sr : Z) : list (list R) :=
  fold_left (add_band band_gains_db sr) BANDS [].

Definition equalizer `{DSPBackend} (signal : ndarray) (sr : Z)
    (band_gains_db : option dict) : result ndarray :=
  let band_gains_db := match band_gains_db with None => [] | Some d => d end in
  let sos_sections := build_sos_sections band_gains_db sr in
  match sos_sections with
  | [] => Ok signal                                  (* signal.copy() *)
  | _ =>
      let output :=
        match signal with
        | Mono v => Mono (sosfilt sos_sections v)
        | Multi rows => Multi (map (fun ch => sosfilt sos_sections ch) rows)
        end in
      peak_normalize output default_target_peak
  end.

(** ** Effect dispatcher *)

Inductive EffectName : Type :=
| REVERSE | PITCH_SHIFT | REVERB | STEREO_WIDEN | TRIM | EIGHT_D_AUDIO | EQUALIZER.

(** The pydantic models of [backend/models/schemas.py]: a field is read from
    the request's parameters, takes its default when absent, and is rejected
    outside its bounds. *)

(** A required field, [Field(...)]. *)
Definition required_field (params : dict) (name : String.string) : result R :=
  match dict_lookup params name with
  | Some v => Ok v
  | None => Raise (ValidationError name)
  end.

(** [Field(default, ge=lo, le=hi)]. *)
Definition bounded_field (params : dict) (name : String.string) (default lo hi : R)
  : result R :=
  match dict_lookup params name with
  | None => Ok default
  | Some v =>
      if Rlt_dec v lo then Raise (ValidationError name)
      else if Rgt_dec v hi then Raise (ValidationError name)
      else Ok v
  end.

(** The same for a field declared [int]: a number with a fractional part is
    rejected. *)
Definition bounded_int_field (params : dict) (name : String.string)
    (default lo hi : Z) : result Z :=
  v <- bounded_field params name (IZR default) (IZR lo) (IZR hi) ;;
  if Req_dec_T (IZR (Zfloor v)) v then Ok (Zfloor v)
  else Raise (ValidationError name).

Definition _apply_effect `{DSPBackend} (signal : ndarray) (sr : Z)
    (effect : EffectName) (params : dict) : result ndarray :=
  match effect with
  | REVERSE => Ok (reverse_audio signal sr)
  | PITCH_SHIFT =>
      semitones <- bounded_field params "semitones"%string 0 (-12) 12 ;;
      pitch_shift signal sr semitones
  | REVERB =>
      decay <- bounded_field params "decay"%string (5 / 10) (1 / 10) (9 / 10) ;;
      delay_ms <- bounded_int_field params "delay_ms"%string 100 50 300 ;;
      reverb signal sr decay delay_ms
  | STEREO_WIDEN =>
      delay_ms <- bounded_int_field params "delay_ms"%string 10 5 20 ;;
      gain_diff_db <- bounded_field params "gain_diff_db"%string (15 / 10) 0 6 ;;
      stereo_widen signal sr delay_ms gain_diff_db
  | TRIM =>
      start_time <- required_field params "start_time"%string ;;
      end_time <- required_field params "end_time"%string ;;
      if Rlt_dec start_time 0 then Raise (ValidationError "start_time"%string)
      else if Rle_dec end_time 0 then Raise (ValidationError "end_time"%string)
      else trim_audio signal sr start_time (Some end_time)
  | EIGHT_D_AUDIO =>
      pan_speed_hz <- bounded_field params "pan_speed_hz"%string (15 / 100) (5 / 100) 1 ;;
      intensity <- bounded_field params "intensity"%string (8 / 10) (1 / 10) 1 ;;
      crossfeed <- bounded_field params "crossfeed"%string (3 / 10) 0 (6 / 10) ;;
      eight_d_audio signal sr pan_speed_hz intensity crossfeed
  | EQUALIZER =>
      sub_bass <- bounded_field params "sub_bass"%string 0 (-12) 12 ;;
      bass <- bounded_field params "bass"%string 0 (-12) 12 ;;
      low_mid <- bounded_field params "low_mid"%string 0 (-12) 12 ;;
      mid <- bounded_field params "mid"%string 0 (-12) 12 ;;
      high_mid <- bounded_field params "high_mid"%string 0 (-12) 12 ;;
      presence <- bounded_field params "presence"%string 0 (-12) 12 ;;
      brilliance <- bounded_field params "brilliance"%string 0 (-12) 12 ;;
      let band_gains :=
        [ ("sub_bass"%string, sub_bass); ("bass"%string, bass);
          ("low_mid"%string, low_mid); ("mid"%string, mid);
          ("high_mid"%string, high_mid); ("presence"%string, presence);
          ("brilliance"%string, brilliance) ] in
      equalizer signal sr (Some band_gains)
  end.

(** Steps 4 and 5 of [process_audio], on the signal that step 3 loaded:
    apply the requested effect, then peak-normalise. *)
Definition process_audio `{DSPBackend} (signal : ndarray) (sr : Z)
    (effect : EffectName) (parameters : dict) : result ndarray :=
  processed_signal <- _apply_effect signal sr effect parameters ;;
  peak_normalize processed_signal default_target_peak.

(** ** Definitions used to state the properties *)

(** The peak of a buffer: [np.max(np.abs(signal))]. *)
Definition peak (signal : ndarray) : result R := np_max (np_abs signal).

(** The largest absolute value of a list, [0] for the empty list. *)
Definition max_abs (l : list R) : R :=
  fold_right (fun x m => Rmax (Rabs x) m) 0 l.

(** A buffer is silent when all its samples are zero. *)
Definition silent (l : list R) : Prop := Forall (fun x => x = 0) l.

(** Channel [c] of a buffer: the buffer itself when it has one axis. *)
Definition channel (s : ndarray) (c : nat) : option (list R) :=
  match s with
  | Mono v => match c with O => Some v | S _ => None end
  | Multi rows => nth_error rows c
  end.

(** The spec's [round]: the nearest integer, a tie going to the even one
    (Python's built-in [round]). *)
Definition spec_round (x : R) : Z :=
  let f := Zfloor x in
  if Rlt_dec (x - IZR f) (1 / 2) then f
  else if Rgt_dec (x - IZR f) (1 / 2) then (f + 1)%Z
  else if Z.even f then f else (f + 1)%Z.

(** The error kinds of the spec, and the kind each exception of the code
    falls under: the three range checks of [trim_audio] are [InvalidRange],
    a rejected parameter is [InvalidParameter]; no exception of the code is an
    [EmptySignal] or an [UnknownEffect]. *)
Inductive ErrorKind : Type :=
| InvalidParameter | InvalidRange | EmptySignal | UnknownEffect.

Definition error_kind (e : exn) : option ErrorKind :=
  match e with
  | StartNegative | EndExceedsDuration _ _ | StartNotBeforeEnd => Some InvalidRange
  | ValidationError _ => Some InvalidParameter
  | _ => None
  end.

(** Every channel of a buffer cut to the samples [[lo, hi)]. *)
Definition slice_channels (signal : ndarray) (lo hi : Z) : ndarray :=
  match signal with
  | Mono v => Mono (py_slice v (Some lo) (Some hi))
  | Multi rows => Multi (map (fun r => py_slice r (Some lo) (Some hi)) rows)
  end.

(** A band that [equalizer] skips: a flat gain, or a centre frequency at or
    above Nyquist. *)
Definition band_inactive (band_gains_db : dict) (sr : Z)
    (band : String.string * R) : Prop :=
  Rabs (dict_get band_gains_db (fst band) 0) < 1 / 100 \/ snd band >= IZR sr / 2.

(** All seven gains at their default, as the dispatcher passes them. *)
Definition flat_gains : dict :=
  [ ("sub_bass"%string, 0); ("bass"%string, 0); ("low_mid"%string, 0);
    ("mid"%string, 0); ("high_mid"%string, 0); ("presence"%string, 0);
    ("brilliance"%string, 0) ].

(** A stand-in for the external transforms, to run the effects on examples:
    both leave the channel as it is. *)
Definition identity_backend : DSPBackend :=
  {| librosa_pitch_shift := fun y _ _ => y;
     sosfilt := fun _ x => x |}.

(** The crossfeed as the spec words it: the left channel is blended first,
    and the right channel is then blended with the left channel already
    updated. *)
Definition crossfeed_sequential (crossfeed : R) (left_out right_out : list R)
  : list R * list R :=
  let left_new := map2 (fun l r => l * (1 - crossfeed) + r * crossfeed)
                       left_out right_out in
  let right_new := map2 (fun r l' => r * (1 - crossfeed) + l' * crossfeed)
                        right_out left_new in
  (left_new, right_new).

(** A buffer the stereo effects accept: one axis, or two axes with at least
    two channels of equal length. *)
Definition stereo_ready (signal : ndarray) : Prop :=
  well_formed signal /\ (2 <= length (ensure_stereo signal))%nat.

(** [f] applied to every channel of a buffer. *)
Definition map_channels (f : list R -> list R) (signal : ndarray) : ndarray :=
  match signal with
  | Mono v => Mono (f v)
  | Multi rows => Multi (map f rows)
  end.

(** Reflection [i] of the channel [x] at sample [j]: the input delayed by
    [i * d] samples and scaled by [decay ^ i]; zero outside the delayed
    copy. *)
Definition reflection (x : list R) (decay : R) (d i j : nat) : R :=
  if ((i * d <=? j) && (j <? i * d + length x))%nat
  then nth (j - i * d) x 0 * decay ^ i
  else 0.

(** The sum of the reflections [taps] at sample [j]. *)
Definition reflections (x : list R) (decay : R) (d : nat) (taps : list nat) (j : nat)
  : R :=
  fold_right (fun i acc => reflection x decay d i j + acc) 0 taps.

(** The echo mix as the spec words it: a zero-initialised output of
    [N + 5 * d] samples, the input in its first [N] samples, and the five
    reflections added on top. *)
Definition echo_channel (x : list R) (decay : R) (d : nat) : list R :=
  map (fun j => nth j x 0 + reflections x decay d [1; 2; 3; 4; 5]%nat j)
      (seq 0 (length x + 5 * d)).

(** What a channel [out] of the reverb output holds once the reflections
    [taps] of the input channel [x] have been added. *)
Definition mixed (decay : R) (d : nat) (taps : list nat) (x out : list R) : Prop :=
  length out = (length x + 5 * d)%nat /\
  forall j, nth j out 0 = nth j x 0 + reflections x decay d taps j.

(** * Properties *)

(** ** The error monad *)

Lemma bind_Ok_inv {A B : Type} (c : result A) (k : A -> result B) (b : B) :
  (x <- c ;; k x) = Ok b -> exists a, c = Ok a /\ k a = Ok b.
Proof.
  destruct c as [a|e]; simpl; intros Hk.
  - exists a. split; [reflexivity | exact Hk].
  - discriminate Hk.
Qed.

(** ** Peaks *)

Lemma max_abs_nonneg (l : list R) : 0 <= max_abs l.
Proof.
  induction l as [|x l IH]; simpl.
  - lra.
  - eapply Rle_trans; [exact IH | apply Rmax_r].
Qed.

Lemma fold_left_Rmax_abs (l : list R) (a : R) :
  0 <= a -> fold_left Rmax (map Rabs l) a = Rmax a (max_abs l).
Proof.
  revert a. induction l as [|x l IH]; intros a Ha; simpl.
  - symmetry. apply Rmax_left. exact Ha.
  - rewrite IH.
    + symmetry. apply Rmax_assoc.
    + eapply Rle_trans; [exact Ha | apply Rmax_l].
Qed.

Lemma flat_map_array (f : R -> R) (s : ndarray) :
  flat (map_array f s) = map f (flat s).
Proof.
  destruct s as [v|rows]; simpl.
  - reflexivity.
  - symmetry. apply concat_map.
Qed.

(** The peak of a buffer with at least one sample is the largest absolute
    value of its samples; a buffer without samples has no peak. *)
Lemma peak_eq (s : ndarray) :
  peak s = match flat s with
           | [] => Raise ZeroSizeReduction
           | _ :: _ => Ok (max_abs (flat s))
           end.
Proof.
  unfold peak, np_max, np_abs. rewrite flat_map_array.
  destruct (flat s) as [|x l]; simpl.
  - reflexivity.
  - f_equal. apply fold_left_Rmax_abs. apply Rabs_pos.
Qed.

Lemma max_abs_scale (l : list R) (k : R) :
  max_abs (map (fun x => x * k) l) = max_abs l * Rabs k.
Proof.
  induction l as [|x l IH]; simpl.
  - lra.
  - rewrite IH, Rabs_mult.
    rewrite (Rmult_comm (Rabs x)), (Rmult_comm (max_abs l)).
    rewrite RmaxRmult by apply Rabs_pos. apply Rmult_comm.
Qed.

Lemma peak_scale (s : ndarray) (k p : R) :
  peak s = Ok p -> peak (scale s k) = Ok (p * Rabs k).
Proof.
  rewrite !peak_eq. unfold scale. rewrite flat_map_array.
  destruct (flat s) as [|x l]; [discriminate|].
  intros Hp. injection Hp as <-. cbn [map].
  f_equal. apply (max_abs_scale (x :: l)).
Qed.

Lemma peak_nonneg (s : ndarray) (p : R) : peak s = Ok p -> 0 <= p.
Proof.
  rewrite peak_eq. destruct (flat s) as [|x l]; [discriminate|].
  intros Hp. injection Hp as <-. apply (max_abs_nonneg (x :: l)).
Qed.

Lemma max_abs_silent (l : list R) : silent l -> max_abs l = 0.
Proof.
  intros Hs. induction Hs as [|x l Hx _ IH]; simpl.
  - reflexivity.
  - rewrite IH, Hx, Rabs_R0. apply Rmax_left. lra.
Qed.

Lemma peak_silent (s : ndarray) :
  flat s <> [] -> silent (flat s) -> peak s = Ok 0.
Proof.
  intros Hne Hs. rewrite peak_eq. rewrite <- (max_abs_silent (flat s) Hs).
  destruct (flat s); [contradiction Hne; reflexivity | reflexivity].
Qed.

Lemma scale_scale (s : ndarray) (k1 k2 : R) :
  scale (scale s k1) k2 = scale s (k1 * k2).
Proof.
  destruct s as [v|rows]; unfold scale; simpl; f_equal.
  - rewrite map_map. apply map_ext. intros; ring.
  - rewrite map_map. apply map_ext. intros r.
    rewrite map_map. apply map_ext. intros; ring.
Qed.

Lemma peak_normalize_silent (s : ndarray) (t : R) :
  peak s = Ok 0 -> peak_normalize s t = Ok s.
Proof.
  unfold peak_normalize. fold (peak s). intros ->. simpl.
  destruct (Req_dec_T 0 0) as [_|Hne]; [reflexivity | contradiction Hne; reflexivity].
Qed.

Lemma peak_normalize_scaled (s : ndarray) (t p : R) :
  peak s = Ok p -> p <> 0 -> peak_normalize s t = Ok (scale s (t / p)).
Proof.
  unfold peak_normalize. fold (peak s). intros -> Hp. simpl.
  destruct (Req_dec_T p 0) as [H0|_]; [contradiction | reflexivity].
Qed.

Lemma peak_after_scaling (s : ndarray) (t p : R) :
  0 <= t -> peak s = Ok p -> p <> 0 -> peak (scale s (t / p)) = Ok t.
Proof.
  intros Ht Hp Hne. rewrite (peak_scale s (t / p) p Hp). f_equal.
  pose proof (peak_nonneg s p Hp) as Hp0.
  assert (Hpos : 0 < p) by lra.
  rewrite Rabs_right.
  - field. exact Hne.
  - apply Rle_ge. apply Rmult_le_pos; [exact Ht|].
    left. apply Rinv_0_lt_compat. exact Hpos.
Qed.

(** For any target, also a negative one, the scaled buffer has peak
    [|target_peak|]. *)
Lemma peak_after_scaling_abs (s : ndarray) (t p : R) :
  peak s = Ok p -> p <> 0 -> peak (scale s (t / p)) = Ok (Rabs t).
Proof.
  intros Hp Hne. rewrite (peak_scale s (t / p) p Hp). f_equal.
  pose proof (peak_nonneg s p Hp) as Hp0.
  unfold Rdiv. rewrite Rabs_mult, (Rabs_right (/ p)).
  - field. exact Hne.
  - apply Rle_ge. left. apply Rinv_0_lt_compat. lra.
Qed.

(** Whatever [peak_normalize] returns has peak [0] or [target_peak]. *)
Lemma peak_normalize_peak (s out : ndarray) (t : R) :
  0 <= t -> peak_normalize s t = Ok out ->
  exists p, peak out = Ok p /\ (p = 0 \/ p = t).
Proof.
  intros Ht. unfold peak_normalize. fold (peak s).
  destruct (peak s) as [p|e] eqn:Hp; simpl; [|discriminate].
  destruct (Req_dec_T p 0) as [H0|Hne]; intros Hout; injection Hout as <-.
  - exists p. split; [exact Hp | left; exact H0].
  - exists t. split; [apply peak_after_scaling; assumption | right; reflexivity].
Qed.

(** Evaluation of [Rmax] and [Rabs] on numerals. *)
Ltac no_test t :=
  lazymatch t with
  | context [Rle_dec _ _] => fail
  | context [Rcase_abs _] => fail
  | _ => idtac
  end.

Ltac eval_max_abs :=
  unfold max_abs, Rmax, Rabs; simpl;
  repeat match goal with
         | |- context [Rcase_abs ?a] => no_test a; destruct (Rcase_abs a); try lra
         | |- context [Rle_dec ?a ?b] =>
             no_test a; no_test b; destruct (Rle_dec a b); try lra
         end;
  try lra.

Ltac eval_peak := rewrite peak_eq; simpl; f_equal; eval_max_abs.

(** ** Normaliser *)

(** C1.  A buffer with a non-zero peak [p] is returned with every sample
    multiplied by [target_peak / p], and the peak of that result is
    [target_peak]; a buffer whose peak is zero is returned unchanged.  The
    target is a peak level, hence not negative. *)
Theorem peak_normalize_correct (buffer : ndarray) (target_peak p : R) :
  0 <= target_peak ->
  peak buffer = Ok p ->
  (p <> 0 ->
     peak_normalize buffer target_peak = Ok (scale buffer (target_peak / p)) /\
     peak (scale buffer (target_peak / p)) = Ok target_peak) /\
  (p = 0 -> peak_normalize buffer target_peak = Ok buffer).
Proof.
  intros Ht Hp. split.
  - intros Hne. split.
    + apply peak_normalize_scaled; assumption.
    + apply peak_after_scaling; assumption.
  - intros ->. apply peak_normalize_silent. exact Hp.
Qed.

Lemma peak_normalize_correct_witness :
  peak_normalize (Mono [1 / 4; - (1 / 2); 1 / 10]) 1
    = Ok (scale (Mono [1 / 4; - (1 / 2); 1 / 10]) (1 / (1 / 2))) /\
  peak (scale (Mono [1 / 4; - (1 / 2); 1 / 10]) (1 / (1 / 2))) = Ok 1.
Proof.
  apply (peak_normalize_correct (Mono [1 / 4; - (1 / 2); 1 / 10]) 1 (1 / 2)).
  - lra.
  - eval_peak.
  - lra.
Defined.

(** C10.  With a fixed target peak, normalising an already normalised buffer
    returns it unchanged, so [peak_normalize] composed with itself is
    [peak_normalize]. *)
Theorem peak_normalize_idempotent (b : ndarray) (target_peak : R) :
  0 <= target_peak ->
  (r <- peak_normalize b target_peak ;; peak_normalize r target_peak)
    = peak_normalize b target_peak /\
  (forall r, peak_normalize b target_peak = Ok r ->
             peak_normalize r target_peak = Ok r).
Proof.
  intros Ht.
  assert (Hsecond : forall r, peak_normalize b target_peak = Ok r ->
                              peak_normalize r target_peak = Ok r).
  { intros r. unfold peak_normalize at 1. fold (peak b).
    destruct (peak b) as [p|e] eqn:Hp; simpl; [|discriminate].
    destruct (Req_dec_T p 0) as [H0|Hne]; intros Hr; injection Hr as <-.
    - apply peak_normalize_silent. rewrite Hp, H0. reflexivity.
    - pose proof (peak_after_scaling b target_peak p Ht Hp Hne) as Hpeak.
      destruct (Req_dec_T target_peak 0) as [Ht0|Htne].
      + apply peak_normalize_silent. rewrite Hpeak, Ht0. reflexivity.
      + rewrite (peak_normalize_scaled _ target_peak target_peak Hpeak Htne).
        rewrite scale_scale. do 2 f_equal. field. split; assumption. }
  split; [|exact Hsecond].
  destruct (peak_normalize b target_peak) as [r|e] eqn:Hr; simpl.
  - apply Hsecond. reflexivity.
  - reflexivity.
Qed.

Lemma peak_normalize_idempotent_witness :
  (r <- peak_normalize (Mono [1 / 4; - (1 / 2)]) (95 / 100) ;;
   peak_normalize r (95 / 100))
    = peak_normalize (Mono [1 / 4; - (1 / 2)]) (95 / 100) /\
  (forall r, peak_normalize (Mono [1 / 4; - (1 / 2)]) (95 / 100) = Ok r ->
             peak_normalize r (95 / 100) = Ok r).
Proof.
  apply (peak_normalize_idempotent (Mono [1 / 4; - (1 / 2)]) (95 / 100)). lra.
Defined.

(** ** Reverse *)

Lemma nth_error_rev (l : list R) (i : nat) :
  (i < length l)%nat -> nth_error (rev l) i = nth_error l (length l - 1 - i).
Proof.
  intros Hi.
  rewrite (nth_error_nth' (rev l) 0) by (rewrite length_rev; exact Hi).
  rewrite (nth_error_nth' l 0) by lia.
  f_equal. rewrite rev_nth by exact Hi. f_equal. lia.
Qed.

(** C6.  Reversing twice gives the buffer back; one reverse keeps the number
    of channels and of samples, and sample [i] of each output channel is
    sample [N - 1 - i] of the same input channel. *)
Theorem reverse_audio_involutive (b : ndarray) (sr : Z) :
  reverse_audio (reverse_audio b sr) sr = b /\
  num_channels (reverse_audio b sr) = num_channels b /\
  num_samples (reverse_audio b sr) = num_samples b /\
  (forall c ch, channel b c = Some ch ->
     exists ch', channel (reverse_audio b sr) c = Some ch' /\
       length ch' = length ch /\
       forall i, (i < length ch)%nat ->
                 nth_error ch' i = nth_error ch (length ch - 1 - i)).
Proof.
  destruct b as [v|rows]; simpl.
  - repeat split.
    + rewrite rev_involutive. reflexivity.
    + apply length_rev.
    + intros [|c] ch Hch; [|discriminate]. injection Hch as <-.
      exists (rev v). repeat split.
      * apply length_rev.
      * intros i Hi. apply nth_error_rev. exact Hi.
  - repeat split.
    + f_equal. rewrite map_map. rewrite <- (map_id rows) at 2.
      apply map_ext. intros r. apply rev_involutive.
    + apply length_map.
    + destruct rows as [|r rows']; simpl; [reflexivity | apply length_rev].
    + intros c ch Hch. exists (rev ch). repeat split.
      * rewrite nth_error_map, Hch. reflexivity.
      * apply length_rev.
      * intros i Hi. apply nth_error_rev. exact Hi.
Qed.

(** ** Integer conversions *)

Lemma py_int_eq (z : Z) (x : R) :
  0 <= x -> IZR z <= x < IZR z + 1 -> py_int x = z.
Proof.
  intros H0 Hz. unfold py_int.
  destruct (Rle_dec 0 x) as [_|Hn]; [|contradiction].
  apply Zfloor_eq. exact Hz.
Qed.

Lemma py_int_nonneg (x : R) : 0 <= x -> py_int x = Zfloor x /\ (0 <= Zfloor x)%Z.
Proof.
  intros H0. split.
  - apply py_int_eq; [exact H0 | apply Zfloor_bound].
  - apply (Zfloor_lub 0). exact H0.
Qed.

Lemma spec_round_floor (x : R) :
  (spec_round x = Zfloor x \/ spec_round x = Zfloor x + 1)%Z.
Proof.
  unfold spec_round.
  destruct (Rlt_dec _ _); [left; reflexivity|].
  destruct (Rgt_dec _ _); [right; reflexivity|].
  destruct (Z.even _); [left | right]; reflexivity.
Qed.

Lemma spec_round_above (z : Z) (x : R) :
  IZR z + 1 / 2 < x < IZR z + 1 -> spec_round x = (z + 1)%Z.
Proof.
  intros Hx. unfold spec_round.
  assert (Hf : Zfloor x = z) by (apply Zfloor_eq; lra).
  rewrite Hf.
  destruct (Rlt_dec _ _) as [Hlt|_]; [lra|].
  destruct (Rgt_dec _ _) as [_|Hn]; [reflexivity | lra].
Qed.

Lemma spec_round_below (z : Z) (x : R) :
  IZR z <= x < IZR z + 1 / 2 -> spec_round x = z.
Proof.
  intros Hx. unfold spec_round.
  assert (Hf : Zfloor x = z) by (apply Zfloor_eq; lra).
  rewrite Hf.
  destruct (Rlt_dec _ _) as [_|Hn]; [reflexivity | lra].
Qed.

(** ** Slices *)

Lemma py_slice_inside {A : Type} (a : list A) (lo hi : Z) :
  (0 <= lo <= hi)%Z -> (hi <= Z.of_nat (length a))%Z ->
  py_slice a (Some lo) (Some hi)
    = firstn (Z.to_nat (hi - lo)) (skipn (Z.to_nat lo) a) /\
  length (py_slice a (Some lo) (Some hi)) = Z.to_nat (hi - lo).
Proof.
  intros Hlo Hhi. unfold py_slice, slice_lo, slice_hi, slice_index.
  destruct (Z.ltb_spec lo 0) as [Hneg|_]; [lia|].
  destruct (Z.ltb_spec hi 0) as [Hneg|_]; [lia|].
  rewrite !Z.min_l by lia. split; [reflexivity|].
  rewrite length_firstn, length_skipn. lia.
Qed.

Lemma nth_error_py_slice {A : Type} (a : list A) (lo hi : Z) (i : nat) :
  (0 <= lo <= hi)%Z -> (hi <= Z.of_nat (length a))%Z ->
  (i < Z.to_nat (hi - lo))%nat ->
  nth_error (py_slice a (Some lo) (Some hi)) i = nth_error a (Z.to_nat lo + i).
Proof.
  intros Hlo Hhi Hi.
  destruct (py_slice_inside a lo hi Hlo Hhi) as [-> _].
  rewrite nth_error_firstn.
  destruct (Nat.ltb_spec i (Z.to_nat (hi - lo))) as [_|Hge]; [|lia].
  apply nth_error_skipn.
Qed.

(** ** Float64 rounding *)

Lemma nearest_even_bounds (x : R) :
  IZR (nearest_even x) - 1 / 2 <= x <= IZR (nearest_even x) + 1 / 2.
Proof.
  unfold nearest_even. pose proof (Zfloor_bound x) as [Hlo Hhi].
  destruct (Rlt_dec _ _) as [Hlt|Hge]; [lra|].
  destruct (Rgt_dec _ _) as [Hgt|Hle]; [rewrite plus_IZR; lra|].
  destruct (Z.even _); [lra | rewrite plus_IZR; lra].
Qed.

Lemma nearest_even_unique (x : R) (m : Z) :
  IZR m - 1 / 2 < x < IZR m + 1 / 2 -> nearest_even x = m.
Proof.
  intros Hx. pose proof (nearest_even_bounds x) as Hb.
  assert (H1 : (nearest_even x < m + 1)%Z) by (apply lt_IZR; rewrite plus_IZR; lra).
  assert (H2 : (m < nearest_even x + 1)%Z) by (apply lt_IZR; rewrite plus_IZR; lra).
  lia.
Qed.

Lemma nearest_even_floor (x : R) :
  (Zfloor x <= nearest_even x <= Zfloor x + 1)%Z.
Proof.
  unfold nearest_even.
  destruct (Rlt_dec _ _); [lia|]. destruct (Rgt_dec _ _); [lia|].
  destruct (Z.even _); lia.
Qed.

Lemma nearest_even_monotone (x y : R) :
  x <= y -> (nearest_even x <= nearest_even y)%Z.
Proof.
  intros Hxy.
  destruct (Z.le_gt_cases (nearest_even x) (nearest_even y)) as [Hle|Hgt];
    [exact Hle|exfalso].
  pose proof (nearest_even_bounds x) as Hx.
  pose proof (nearest_even_bounds y) as Hy.
  assert (Hstep : IZR (nearest_even y) + 1 <= IZR (nearest_even x))
    by (rewrite <- plus_IZR; apply IZR_le; lia).
  assert (Heq : x = y) by lra.
  subst y. lia.
Qed.

Lemma ln_2_pos : 0 < ln 2.
Proof. rewrite <- ln_1. apply ln_increasing; lra. Qed.

Lemma pow2_pos (z : Z) : 0 < powerRZ 2 z.
Proof. apply powerRZ_lt. lra. Qed.

Lemma pow2_exp (z : Z) : powerRZ 2 z = exp (IZR z * ln 2).
Proof. rewrite powerRZ_Rpower by lra. reflexivity. Qed.

Lemma pow2_monotone (a b : Z) : (a <= b)%Z -> powerRZ 2 a <= powerRZ 2 b.
Proof.
  intros Hab. rewrite !pow2_exp. pose proof ln_2_pos as Hln.
  destruct (Z.eq_dec a b) as [->|Hne]; [lra|].
  left. apply exp_increasing. apply Rmult_lt_compat_r; [exact Hln|].
  apply IZR_lt. lia.
Qed.

Lemma pow2_split (a b : Z) : powerRZ 2 (a + b) = powerRZ 2 a * powerRZ 2 b.
Proof. apply powerRZ_add. lra. Qed.

Lemma binary_exponent_spec (x : R) :
  x <> 0 ->
  powerRZ 2 (binary_exponent x - 1) <= Rabs x < powerRZ 2 (binary_exponent x).
Proof.
  intros Hx. pose proof (Rabs_pos_lt x Hx) as Hpos.
  pose proof ln_2_pos as Hln. unfold binary_exponent.
  set (L := ln (Rabs x) / ln 2).
  pose proof (Zfloor_bound L) as [Hlo Hhi].
  assert (HL : L * ln 2 = ln (Rabs x)) by (unfold L; field; lra).
  replace (Zfloor L + 1 - 1)%Z with (Zfloor L) by lia.
  assert (Hexp : exp (L * ln 2) = Rabs x) by (rewrite HL; apply exp_ln; exact Hpos).
  rewrite !pow2_exp, plus_IZR, <- Hexp. split.
  - destruct Hlo as [Hlt|Heq].
    + left. apply exp_increasing. apply Rmult_lt_compat_r; assumption.
    + rewrite Heq. lra.
  - apply exp_increasing. apply Rmult_lt_compat_r; assumption.
Qed.

Lemma binary_exponent_unique (x : R) (e : Z) :
  powerRZ 2 (e - 1) <= Rabs x < powerRZ 2 e -> binary_exponent x = e.
Proof.
  intros [Hlo Hhi].
  assert (Hx : x <> 0).
  { intros ->. rewrite Rabs_R0 in Hlo. pose proof (pow2_pos (e - 1)). lra. }
  pose proof (binary_exponent_spec x Hx) as [Hlo' Hhi'].
  destruct (Z.lt_trichotomy (binary_exponent x) e) as [Hlt|[Heq|Hgt]];
    [exfalso|exact Heq|exfalso].
  - pose proof (pow2_monotone (binary_exponent x) (e - 1) ltac:(lia)). lra.
  - pose proof (pow2_monotone e (binary_exponent x - 1) ltac:(lia)). lra.
Qed.

Lemma round_float64_0 : round_float64 0 = 0.
Proof.
  unfold round_float64. destruct (Req_dec_T 0 0) as [_|Hne]; [reflexivity|].
  contradiction Hne. reflexivity.
Qed.

Lemma pow2_inverse (e : Z) : powerRZ 2 (53 - e) * powerRZ 2 (e - 53) = 1.
Proof.
  rewrite <- pow2_split. replace (53 - e + (e - 53))%Z with 0%Z by lia. reflexivity.
Qed.

Lemma pow2_52 (e : Z) : powerRZ 2 (e - 1) = powerRZ 2 (e - 53) * 4503599627370496.
Proof.
  replace (e - 1)%Z with (e - 53 + 52)%Z by lia. rewrite pow2_split. f_equal.
  simpl. lra.
Qed.

(** The value of a float64 rounding, from its exponent and mantissa. *)
Lemma round_float64_value (x : R) (e m : Z) :
  powerRZ 2 (e - 1) <= x < powerRZ 2 e ->
  IZR m - 1 / 2 < x * powerRZ 2 (53 - e) < IZR m + 1 / 2 ->
  round_float64 x = IZR m * powerRZ 2 (e - 53).
Proof.
  intros Hx Hm. pose proof (pow2_pos (e - 1)) as Hpos.
  unfold round_float64. destruct (Req_dec_T x 0) as [H0|_]; [lra|].
  rewrite (binary_exponent_unique x e) by (rewrite Rabs_right; lra).
  cbv zeta. rewrite (nearest_even_unique _ m Hm). reflexivity.
Qed.

Lemma round_float64_error (x : R) :
  Rabs (round_float64 x - x) <= Rabs x * eps64.
Proof.
  unfold round_float64, eps64. destruct (Req_dec_T x 0) as [->|Hx].
  - rewrite Rminus_0_r, Rabs_R0. lra.
  - cbv zeta. set (e := binary_exponent x).
    pose proof (binary_exponent_spec x Hx) as [Hlo _]. fold e in Hlo.
    rewrite pow2_52 in Hlo.
    pose proof (pow2_pos (e - 53)) as HP.
    pose proof (pow2_inverse e) as Hinv.
    set (P := powerRZ 2 (e - 53)) in *. set (Q := powerRZ 2 (53 - e)) in *.
    pose proof (nearest_even_bounds (x * Q)) as Hb.
    set (r := IZR (nearest_even (x * Q))) in *.
    replace (r * P - x) with ((r - x * Q) * P)
      by (replace x with (x * (Q * P)) at 2 by (rewrite Hinv; ring); ring).
    rewrite Rabs_mult, (Rabs_right P) by lra.
    assert (Hd : Rabs (r - x * Q) <= 1 / 2) by (apply Rabs_le; lra).
    nra.
Qed.

Lemma round_float64_near (x : R) :
  0 <= x -> x - x * eps64 <= round_float64 x <= x + x * eps64.
Proof.
  intros Hx. pose proof (round_float64_error x) as He.
  rewrite (Rabs_right x) in He by lra.
  unfold Rabs in He. destruct (Rcase_abs _); lra.
Qed.

Lemma round_float64_sign (x : R) :
  (0 <= x -> 0 <= round_float64 x) /\
  (0 < x -> 0 < round_float64 x) /\
  (x < 0 -> round_float64 x < 0).
Proof.
  pose proof (round_float64_error x) as He. unfold eps64 in He.
  repeat split; intros Hx.
  - rewrite (Rabs_right x) in He by lra.
    unfold Rabs in He. destruct (Rcase_abs _); lra.
  - rewrite (Rabs_right x) in He by lra.
    unfold Rabs in He. destruct (Rcase_abs _); lra.
  - rewrite (Rabs_left x) in He by lra.
    unfold Rabs in He. destruct (Rcase_abs _); lra.
Qed.

Lemma round_float64_monotone (x y : R) :
  0 <= x -> x <= y -> round_float64 x <= round_float64 y.
Proof.
  intros Hx Hxy.
  destruct (Req_dec_T x 0) as [->|Hx0].
  - rewrite round_float64_0. apply round_float64_sign. exact Hxy.
  - assert (Hy0 : y <> 0) by lra.
    pose proof (binary_exponent_spec x Hx0) as [Hxl Hxh].
    pose proof (binary_exponent_spec y Hy0) as [Hyl Hyh].
    rewrite (Rabs_right x) in * by lra. rewrite (Rabs_right y) in * by lra.
    unfold round_float64.
    destruct (Req_dec_T x 0) as [H|_]; [contradiction|].
    destruct (Req_dec_T y 0) as [H|_]; [contradiction|]. cbv zeta.
    set (ex := binary_exponent x) in *. set (ey := binary_exponent y) in *.
    assert (Hexy : (ex <= ey)%Z).
    { destruct (Z.le_gt_cases ex ey) as [H|H]; [exact H|exfalso].
      pose proof (pow2_monotone ey (ex - 1) ltac:(lia)). lra. }
    destruct (Z.eq_dec ex ey) as [Heq|Hne].
    + rewrite <- Heq. apply Rmult_le_compat_r; [left; apply pow2_pos|].
      apply IZR_le. apply nearest_even_monotone.
      apply Rmult_le_compat_r; [left; apply pow2_pos | exact Hxy].
    + (* different binades: the rounding of [x] is at most [2^ex], that of
         [y] at least [2^(ey-1)] *)
      apply Rle_trans with (powerRZ 2 ex).
      * pose proof (pow2_pos (ex - 53)) as HP. pose proof (pow2_inverse ex) as Hinv.
        assert (Hm : x * powerRZ 2 (53 - ex) < 9007199254740992).
        { replace (powerRZ 2 ex) with (powerRZ 2 (ex - 53) * 9007199254740992) in Hxh.
          - pose proof (pow2_pos (53 - ex)) as HQ.
            set (P := powerRZ 2 (ex - 53)) in *. set (Q := powerRZ 2 (53 - ex)) in *.
            assert (x * Q < P * 9007199254740992 * Q) by nra.
            replace (P * 9007199254740992 * Q) with (9007199254740992 * (Q * P)) in H by ring.
            rewrite Hinv in H. lra.
          - replace ex with (ex - 53 + 53)%Z at 2 by lia. rewrite pow2_split.
            f_equal. simpl. lra. }
        assert (Hr : (nearest_even (x * powerRZ 2 (53 - ex)) <= 9007199254740992)%Z).
        { pose proof (nearest_even_floor (x * powerRZ 2 (53 - ex))) as [_ Hup].
          pose proof (Zfloor_bound (x * powerRZ 2 (53 - ex))) as [Hfl _].
          assert ((Zfloor (x * powerRZ 2 (53 - ex)) < 9007199254740992)%Z)
            by (apply lt_IZR; lra).
          lia. }
        apply IZR_le in Hr.
        replace (powerRZ 2 ex) with (9007199254740992 * powerRZ 2 (ex - 53)).
        -- apply Rmult_le_compat_r; [lra | exact Hr].
        -- replace ex with (53 + (ex - 53))%Z at 2 by lia. rewrite pow2_split.
           f_equal. simpl. lra.
      * apply Rle_trans with (powerRZ 2 (ey - 1)); [apply pow2_monotone; lia|].
        pose proof (pow2_pos (ey - 53)) as HP. pose proof (pow2_inverse ey) as Hinv.
        rewrite pow2_52 in Hyl. rewrite pow2_52.
        pose proof (pow2_pos (53 - ey)) as HQ.
        assert (Hm : 4503599627370496 <= y * powerRZ 2 (53 - ey)).
        { set (P := powerRZ 2 (ey - 53)) in *. set (Q := powerRZ 2 (53 - ey)) in *.
          assert (P * 4503599627370496 * Q <= y * Q) by nra.
          replace (P * 4503599627370496 * Q) with (4503599627370496 * (Q * P)) in H by ring.
          rewrite Hinv in H. lra. }
        assert (Hr : (4503599627370496 <= nearest_even (y * powerRZ 2 (53 - ey)))%Z).
        { pose proof (nearest_even_floor (y * powerRZ 2 (53 - ey))) as [Hdown _].
          pose proof (Zfloor_lub 4503599627370496 _ Hm). lia. }
        apply IZR_le in Hr. rewrite (Rmult_comm (powerRZ 2 (ey - 53))).
        apply Rmult_le_compat_r; [lra | exact Hr].
Qed.

Lemma round_float64_exact (x : R) (e m : Z) :
  powerRZ 2 (e - 1) <= x < powerRZ 2 e ->
  x * powerRZ 2 (53 - e) = IZR m ->
  round_float64 x = x.
Proof.
  intros Hx Hm. rewrite (round_float64_value x e m Hx) by (rewrite Hm; lra).
  rewrite <- Hm. rewrite Rmult_assoc, pow2_inverse. ring.
Qed.

(** The mantissa of a rounding has 53 bits, or is [2^53] when the rounding
    reaches the next power of two. *)
Lemma round_float64_mantissa (x : R) :
  0 < x ->
  (4503599627370496
   <= nearest_even (x * powerRZ 2 (53 - binary_exponent x))
   <= 9007199254740992)%Z.
Proof.
  intros Hx. pose proof (binary_exponent_spec x ltac:(lra)) as [Hlo Hhi].
  rewrite (Rabs_right x) in Hlo, Hhi by lra.
  set (e := binary_exponent x) in *.
  pose proof (pow2_pos (53 - e)) as HQ.
  assert (H52 : powerRZ 2 (e - 1) * powerRZ 2 (53 - e) = 4503599627370496).
  { rewrite <- pow2_split. replace (e - 1 + (53 - e))%Z with 52%Z by lia.
    simpl. lra. }
  assert (H53 : powerRZ 2 e * powerRZ 2 (53 - e) = 9007199254740992).
  { rewrite <- pow2_split. replace (e + (53 - e))%Z with 53%Z by lia.
    simpl. lra. }
  assert (Hl : 4503599627370496 <= x * powerRZ 2 (53 - e))
    by (rewrite <- H52; apply Rmult_le_compat_r; lra).
  assert (Hh : x * powerRZ 2 (53 - e) < 9007199254740992)
    by (rewrite <- H53; apply Rmult_lt_compat_r; lra).
  pose proof (nearest_even_floor (x * powerRZ 2 (53 - e))) as [Hdown Hup].
  pose proof (Zfloor_lub 4503599627370496 _ Hl) as Hfl.
  pose proof (Zfloor_bound (x * powerRZ 2 (53 - e))) as [Hfb _].
  assert ((Zfloor (x * powerRZ 2 (53 - e)) < 9007199254740992)%Z)
    by (apply lt_IZR; lra).
  lia.
Qed.

(** A float64 is left as it is: rounding twice is rounding once. *)
Lemma round_float64_idempotent (x : R) :
  0 <= x -> round_float64 (round_float64 x) = round_float64 x.
Proof.
  intros Hx. destruct (Req_dec_T x 0) as [->|Hne];
    [rewrite round_float64_0; apply round_float64_0|].
  pose proof (round_float64_mantissa x ltac:(lra)) as [Hm52 Hm53].
  assert (Hy : round_float64 x
               = IZR (nearest_even (x * powerRZ 2 (53 - binary_exponent x)))
                 * powerRZ 2 (binary_exponent x - 53)).
  { unfold round_float64. destruct (Req_dec_T x 0) as [H|_]; [contradiction|].
    reflexivity. }
  set (e := binary_exponent x) in *.
  set (m := nearest_even (x * powerRZ 2 (53 - e))) in *.
  pose proof (pow2_pos (e - 53)) as HP.
  assert (He : powerRZ 2 e = 9007199254740992 * powerRZ 2 (e - 53)).
  { replace e with (53 + (e - 53))%Z at 1 by lia. rewrite pow2_split.
    f_equal. simpl. lra. }
  apply IZR_le in Hm52.
  destruct (Z.eq_dec m 9007199254740992) as [Htop|Hlow].
  - apply (round_float64_exact _ (e + 1) 4503599627370496).
    + rewrite Hy, Htop, <- He. replace (e + 1 - 1)%Z with e by lia.
      rewrite pow2_split. simpl (powerRZ 2 1). pose proof (pow2_pos e). lra.
    + rewrite Hy, Htop, Rmult_assoc, <- pow2_split.
      replace (e - 53 + (53 - (e + 1)))%Z with (-1)%Z by lia. simpl. lra.
  - assert (Hlt : IZR m < 9007199254740992) by (apply IZR_lt; lia).
    apply (round_float64_exact _ e m).
    + rewrite Hy, pow2_52, He. split.
      * rewrite (Rmult_comm (powerRZ 2 (e - 53))).
        apply Rmult_le_compat_r; lra.
      * apply Rmult_lt_compat_r; lra.
    + rewrite Hy, Rmult_assoc, (Rmult_comm (powerRZ 2 (e - 53))), pow2_inverse. ring.
Qed.

Lemma py_float_idempotent (x : R) : 0 <= x -> py_float (py_float x) = py_float x.
Proof. apply round_float64_idempotent. Qed.

Lemma pow2_IZR (z : Z) : (0 <= z)%Z -> powerRZ 2 z = IZR (2 ^ z).
Proof.
  intros Hz. rewrite <- (Z2Nat.id z Hz) at 1.
  rewrite <- pow_powerRZ. rewrite <- (Z2Nat.id z Hz) at 2.
  symmetry. rewrite <- pow_IZR. reflexivity.
Qed.

(** An integer below [2^53] is a float64. *)
Lemma round_float64_int (n : Z) :
  (0 <= n < 9007199254740992)%Z -> round_float64 (IZR n) = IZR n.
Proof.
  intros [Hn0 Hn]. destruct (Z.eq_dec n 0) as [->|Hne]; [apply round_float64_0|].
  assert (Hpos : 0 < IZR n) by (apply IZR_lt; lia).
  pose proof (binary_exponent_spec (IZR n) ltac:(lra)) as He.
  rewrite (Rabs_pos_eq (IZR n)) in He by lra.
  set (e := binary_exponent (IZR n)) in *.
  assert (Hle : (e <= 53)%Z).
  { destruct (Z_le_gt_dec e 53) as [H|H]; [exact H|exfalso].
    pose proof (pow2_monotone 53 (e - 1) ltac:(lia)) as Hm.
    apply IZR_lt in Hn. simpl in Hm. lra. }
  apply (round_float64_exact (IZR n) e (n * 2 ^ (53 - e))); [exact He|].
  rewrite mult_IZR, pow2_IZR by lia. reflexivity.
Qed.

Lemma int_to_float_exact (n : Z) :
  (0 <= n < 9007199254740992)%Z -> int_to_float n = IZR n.
Proof. apply round_float64_int. Qed.

Lemma round_float64_between (x lo hi : R) :
  0 <= lo -> lo <= x <= hi ->
  lo - lo * eps64 <= round_float64 x <= hi + hi * eps64.
Proof.
  intros Hlo Hx. pose proof (round_float64_near x ltac:(lra)) as Hn.
  unfold eps64 in *. lra.
Qed.

(** At 44100 Hz the time written 0.7 is sample 30869, not 30870: the float64
    nearest to 0.7 is below it, and so is its product with the rate. *)
Example sample_index_of_0_7 :
  py_int (float_mul (py_float (7 / 10)) (int_to_float 44100)) = 30869%Z.
Proof.
  rewrite int_to_float_exact by lia. unfold float_mul, py_float.
  rewrite (round_float64_value (7 / 10) 0 6305039478318694) by (simpl; lra).
  rewrite (round_float64_value _ 15 8485480987361279) by (simpl; lra).
  apply py_int_eq; simpl; lra.
Qed.

(** The duration of 28800 samples at 44100 Hz, multiplied by the rate, is
    sample 28799: the default end can fall one sample short. *)
Example sample_index_of_duration :
  py_int (float_mul (round_float64 (IZR 28800 / IZR 44100)) (int_to_float 44100))
    = 28799%Z.
Proof.
  rewrite int_to_float_exact by lia. unfold float_mul.
  rewrite (round_float64_value (IZR 28800 / IZR 44100) 0 5882252574524729)
    by (simpl; lra).
  rewrite (round_float64_value _ 15 7916483719987199) by (simpl; lra).
  apply py_int_eq; simpl; lra.
Qed.

(** The times 0.35 and 0.35001 are one sample apart at 44100 Hz: samples
    15434 and 15435. *)
Example sample_indices_of_0_35 :
  py_int (float_mul (py_float (35 / 100)) (int_to_float 44100)) = 15434%Z /\
  py_int (float_mul (py_float (35001 / 100000)) (int_to_float 44100)) = 15435%Z.
Proof.
  rewrite int_to_float_exact by lia. unfold float_mul, py_float. split.
  - rewrite (round_float64_value (35 / 100) (-1) 6305039478318694) by (simpl; lra).
    rewrite (round_float64_value _ 14 8485480987361279) by (simpl; lra).
    apply py_int_eq; simpl; lra.
  - rewrite (round_float64_value (35001 / 100000) (-1) 6305219622303789)
      by (simpl; lra).
    rewrite (round_float64_value _ 14 8485723429675204) by (simpl; lra).
    apply py_int_eq; simpl; lra.
Qed.

Lemma abs_le_inv (x a : R) : Rabs x <= a -> - a <= x <= a.
Proof. unfold Rabs. destruct (Rcase_abs x); lra. Qed.

Lemma spec_round_bounds (x : R) :
  IZR (spec_round x) - 1 / 2 <= x <= IZR (spec_round x) + 1 / 2.
Proof. exact (nearest_even_bounds x). Qed.

(** Truncating a number within a quarter of [x] gives the rounding of [x], or
    one less. *)
Lemma index_near_round (x p : R) :
  Rabs (p - x) <= 1 / 4 ->
  (spec_round x = Zfloor p \/ spec_round x = Zfloor p + 1)%Z.
Proof.
  intros Hp. apply abs_le_inv in Hp.
  pose proof (spec_round_bounds x) as Hr. pose proof (Zfloor_bound p) as Hf.
  assert (H1 : (Zfloor p - 1 < spec_round x)%Z)
    by (apply lt_IZR; rewrite minus_IZR; lra).
  assert (H2 : (spec_round x < Zfloor p + 2)%Z)
    by (apply lt_IZR; rewrite plus_IZR; lra).
  lia.
Qed.

(** The sample index of a float product that is not negative and at most the
    number of samples (up to the rounding of the duration). *)
Lemma sample_index_bounds (x : R) (n : Z) :
  0 <= x -> x <= IZR n + 1 / 8 -> (n < 1125899906842624)%Z ->
  py_int (round_float64 x) = Zfloor (round_float64 x) /\
  (0 <= py_int (round_float64 x) <= n)%Z /\
  Rabs (round_float64 x - x) <= 1 / 4.
Proof.
  intros Hx Hn Hbig. apply IZR_lt in Hbig.
  pose proof (round_float64_near x Hx) as Hnear. unfold eps64 in Hnear.
  destruct (py_int_nonneg (round_float64 x)) as [Hint Hpos]; [lra|].
  rewrite Hint. split; [reflexivity|]. split; [split; [exact Hpos|]|].
  - pose proof (Zfloor_bound (round_float64 x)) as [Hfl _].
    assert (Hlt : (Zfloor (round_float64 x) < n + 1)%Z)
      by (apply lt_IZR; rewrite plus_IZR; lra).
    lia.
  - apply Rabs_le. lra.
Qed.

(** The float64 duration, multiplied by the rate, is within an eighth of the
    number of samples. *)
Lemma duration_times_rate (N : nat) (sr : Z) :
  (0 < sr)%Z -> (Z.of_nat N < 1125899906842624)%Z ->
  let duration := round_float64 (IZR (Z.of_nat N) / IZR sr) in
  0 <= duration /\
  IZR (Z.of_nat N) - 1 / 8 <= duration * IZR sr <= IZR (Z.of_nat N) + 1 / 8.
Proof.
  intros Hsr Hbig duration. apply IZR_lt in Hbig.
  assert (Hr : 0 < IZR sr) by (apply IZR_lt; exact Hsr).
  assert (HN : 0 <= IZR (Z.of_nat N)) by (apply IZR_le; lia).
  set (q := IZR (Z.of_nat N) / IZR sr) in *.
  assert (Hq : q * IZR sr = IZR (Z.of_nat N)) by (unfold q; field; lra).
  assert (Hq0 : 0 <= q).
  { unfold q, Rdiv. apply Rmult_le_pos; [lra|].
    left. apply Rinv_0_lt_compat. lra. }
  pose proof (round_float64_near q Hq0) as [Hlo Hhi]. fold duration in Hlo, Hhi.
  unfold eps64 in Hlo, Hhi.
  apply (Rmult_le_compat_r (IZR sr)) in Hlo; [|lra].
  apply (Rmult_le_compat_r (IZR sr)) in Hhi; [|lra].
  replace ((q - q * / 9007199254740992) * IZR sr)
    with (q * IZR sr - q * IZR sr * / 9007199254740992) in Hlo by ring.
  replace ((q + q * / 9007199254740992) * IZR sr)
    with (q * IZR sr + q * IZR sr * / 9007199254740992) in Hhi by ring.
  rewrite Hq in Hlo, Hhi. split; [|lra].
  apply round_float64_sign. exact Hq0.
Qed.

(** ** Trim *)

(** [trim_audio], with the three range checks on the float64 values. *)
Lemma trim_audio_checks (signal : ndarray) (sr : Z) (start_time : R)
    (end_time : option R) :
  sr <> 0%Z ->
  trim_audio signal sr start_time end_time =
    (let s := py_float start_time in
     let duration := round_float64 (IZR (Z.of_nat (num_samples signal)) / IZR sr) in
     let e := match end_time with None => duration | Some e => py_float e end in
     if Rlt_dec s 0 then Raise StartNegative
     else if Rgt_dec e duration then Raise (EndExceedsDuration e duration)
     else if Rge_dec s e then Raise StartNotBeforeEnd
     else Ok (slice_channels signal (py_int (float_mul s (int_to_float sr)))
                                    (py_int (float_mul e (int_to_float sr))))).
Proof.
  intros Hsr. unfold trim_audio, int_truediv.
  destruct (Z.eqb_spec sr 0) as [Hz|_]; [contradiction|]. cbn [bind].
  destruct end_time as [e|]; cbn [option_map]; cbv zeta;
    destruct (Rlt_dec _ _); try reflexivity;
    destruct (Rgt_dec _ _); try reflexivity;
    destruct (Rge_dec _ _); try reflexivity;
    destruct signal; reflexivity.
Qed.

Lemma duration_of_empty (sr : Z) : round_float64 (IZR (Z.of_nat 0) / IZR sr) = 0.
Proof.
  replace (IZR (Z.of_nat 0) / IZR sr) with 0 by (simpl; unfold Rdiv; ring).
  apply round_float64_0.
Qed.

Lemma trim_audio_empty_zero_rate (signal : ndarray) (start_time : R)
    (end_time : option R) :
  trim_audio signal 0 start_time end_time = Raise ZeroDivisionError.
Proof. reflexivity. Qed.

Lemma trim_audio_empty_range (signal : ndarray) (sr : Z) (start_time : R)
    (end_time : option R) :
  num_samples signal = 0%nat -> sr <> 0%Z ->
  trim_audio signal sr start_time end_time =
    Raise (if Rlt_dec start_time 0 then StartNegative
           else match end_time with
                | Some e => if Rgt_dec e 0 then EndExceedsDuration (py_float e) 0
                            else StartNotBeforeEnd
                | None => StartNotBeforeEnd
                end).
Proof.
  intros HN Hsr. rewrite (trim_audio_checks signal sr start_time end_time Hsr).
  rewrite HN, duration_of_empty. cbv zeta. unfold py_float.
  destruct (round_float64_sign start_time) as (Hs0 & _ & Hsneg).
  destruct (Rlt_dec start_time 0) as [Hneg|Hpos].
  - destruct (Rlt_dec (round_float64 start_time) 0) as [_|Hn];
      [reflexivity | contradiction Hn; apply Hsneg; exact Hneg].
  - destruct (Rlt_dec (round_float64 start_time) 0) as [Hlt|_];
      [pose proof (Hs0 ltac:(lra)); lra|].
    destruct end_time as [e|].
    + destruct (round_float64_sign e) as (He0 & Hepos & Heneg).
      destruct (Rgt_dec e 0) as [Hgt|Hle].
      * destruct (Rgt_dec (round_float64 e) 0) as [_|Hn];
          [reflexivity | contradiction Hn; apply Hepos; exact Hgt].
      * assert (Hfe : round_float64 e <= 0).
        { destruct (Req_dec e 0) as [->|Hne];
            [rewrite round_float64_0; lra | left; apply Heneg; lra]. }
        destruct (Rgt_dec (round_float64 e) 0) as [Hgt|_]; [lra|].
        pose proof (Hs0 ltac:(lra)) as Hfs.
        destruct (Rge_dec (round_float64 start_time) (round_float64 e)) as [_|Hn];
          [reflexivity | lra].
    + destruct (Rgt_dec 0 0) as [Hgt|_]; [lra|].
      pose proof (Hs0 ltac:(lra)) as Hfs.
      destruct (Rge_dec (round_float64 start_time) 0) as [_|Hn]; [reflexivity | lra].
Qed.

(** C2, as the code has it.  On a buffer with zero samples [trim_audio]
    fails, and never with an [EmptySignal]: a zero sample rate makes the
    division for the duration fail; otherwise the duration is zero and the
    first range check that applies raises its [ValueError]. *)
Theorem trim_audio_empty_fails (signal : ndarray) (sr : Z) (start_time : R)
    (end_time : option R) :
  num_samples signal = 0%nat ->
  (sr = 0%Z -> trim_audio signal sr start_time end_time = Raise ZeroDivisionError) /\
  (sr <> 0%Z ->
     trim_audio signal sr start_time end_time =
       Raise (if Rlt_dec start_time 0 then StartNegative
              else match end_time with
                   | Some e => if Rgt_dec e 0 then EndExceedsDuration (py_float e) 0
                               else StartNotBeforeEnd
                   | None => StartNotBeforeEnd
                   end)) /\
  (exists e, trim_audio signal sr start_time end_time = Raise e /\
             error_kind e <> Some EmptySignal).
Proof.
  intros HN.
  split; [intros ->; apply trim_audio_empty_zero_rate|].
  split; [apply trim_audio_empty_range; exact HN|].
  destruct (Z.eq_dec sr 0) as [H0|Hne].
  - eexists. split; [rewrite H0; apply trim_audio_empty_zero_rate | discriminate].
  - eexists. split; [apply trim_audio_empty_range; assumption|].
    destruct (Rlt_dec start_time 0); [discriminate|].
    destruct end_time as [e|]; [|discriminate].
    destruct (Rgt_dec e 0); discriminate.
Qed.

Lemma trim_audio_empty_fails_witness :
  trim_audio (Mono []) 44100 0 (Some 1) =
    Raise (if Rlt_dec 0 0 then StartNegative
           else if Rgt_dec 1 0 then EndExceedsDuration (py_float 1) 0
                else StartNotBeforeEnd).
Proof.
  apply (trim_audio_empty_fails (Mono []) 44100 0 (Some 1)).
  - reflexivity.
  - discriminate.
Defined.

(** C2 as the spec words it fails: on the empty buffer with the default
    range the exception is the one of the third range check. *)
Lemma trim_audio_empty_not_EmptySignal :
  trim_audio (Mono []) 44100 0 None = Raise StartNotBeforeEnd /\
  ~ (exists e, trim_audio (Mono []) 44100 0 None = Raise e /\
               error_kind e = Some EmptySignal).
Proof.
  assert (H : trim_audio (Mono []) 44100 0 None = Raise StartNotBeforeEnd).
  { rewrite trim_audio_empty_range by (reflexivity || discriminate).
    destruct (Rlt_dec 0 0) as [Hlt|_]; [lra | reflexivity]. }
  split; [exact H|].
  intros (e & He & Hk). rewrite H in He. injection He as <-. discriminate Hk.
Qed.

Lemma well_formed_channel (signal : ndarray) (c : nat) (ch : list R) :
  well_formed signal -> channel signal c = Some ch ->
  length ch = num_samples signal.
Proof.
  destruct signal as [v|rows]; simpl.
  - intros _. destruct c; [|discriminate]. intros H; injection H as <-. reflexivity.
  - intros (n & Hrect) Hc. unfold rect in Hrect. rewrite Forall_forall in Hrect.
    rewrite (Hrect ch (nth_error_In _ _ Hc)).
    destruct rows as [|r rows']; [destruct c; discriminate|].
    simpl. symmetry. apply Hrect. left. reflexivity.
Qed.

(** The two sample indices of a valid pair of float64 times. *)
Lemma sample_bounds (N : nat) (sr : Z) (s e : R) :
  (0 < sr)%Z -> (Z.of_nat N < 1125899906842624)%Z ->
  0 <= s -> s <= e ->
  e <= round_float64 (IZR (Z.of_nat N) / IZR sr) ->
  (0 <= py_int (float_mul s (IZR sr)) <= py_int (float_mul e (IZR sr)))%Z /\
  (py_int (float_mul e (IZR sr)) <= Z.of_nat N)%Z /\
  Rabs (float_mul s (IZR sr) - s * IZR sr) <= 1 / 4 /\
  Rabs (float_mul e (IZR sr) - e * IZR sr) <= 1 / 4 /\
  py_int (float_mul s (IZR sr)) = Zfloor (float_mul s (IZR sr)) /\
  py_int (float_mul e (IZR sr)) = Zfloor (float_mul e (IZR sr)).
Proof.
  intros Hsr Hbig H0 Hse Hend. unfold float_mul.
  assert (Hr : 0 < IZR sr) by (apply IZR_lt; exact Hsr).
  destruct (duration_times_rate N sr Hsr Hbig) as [_ [_ Hdur]].
  assert (Hxs : 0 <= s * IZR sr) by (apply Rmult_le_pos; lra).
  assert (Hxse : s * IZR sr <= e * IZR sr) by (apply Rmult_le_compat_r; lra).
  assert (Hxe : e * IZR sr <= IZR (Z.of_nat N) + 1 / 8).
  { eapply Rle_trans; [apply Rmult_le_compat_r; [lra | exact Hend] | lra]. }
  destruct (sample_index_bounds (s * IZR sr) (Z.of_nat N)) as (Hsi & [Hs0 _] & Hserr);
    [lra | lra | exact Hbig |].
  destruct (sample_index_bounds (e * IZR sr) (Z.of_nat N)) as (Hei & [_ HeN] & Heerr);
    [lra | lra | exact Hbig |].
  split; [split; [exact Hs0|]|repeat split; assumption].
  rewrite Hsi, Hei. apply Zfloor_le.
  apply round_float64_monotone; assumption.
Qed.

(** C3, as the code has it.  For a valid pair of times on a non-empty
    buffer, [trim_audio] cuts every channel to the samples
    [[int(start_time * sr), int(end_time * sr))], where the times and the
    products are float64 values and [int()] truncates; the output has
    [int(end_time * sr) - int(start_time * sr)] samples per channel, at most
    one sample away from [round(end_time * sr) - round(start_time * sr)],
    whether the products under [round] are exact or float64. *)
Theorem trim_audio_slices (signal : ndarray) (sr : Z) (start_time end_time : R) :
  well_formed signal ->
  (0 < sr < 9007199254740992)%Z ->
  (Z.of_nat (num_samples signal) < 1125899906842624)%Z ->
  let s := py_float start_time in
  let e := py_float end_time in
  0 <= s ->
  s < e ->
  e <= round_float64 (IZR (Z.of_nat (num_samples signal)) / IZR sr) ->
  let start_sample := py_int (float_mul s (int_to_float sr)) in
  let end_sample := py_int (float_mul e (int_to_float sr)) in
  (0 <= start_sample <= end_sample)%Z /\
  (end_sample <= Z.of_nat (num_samples signal))%Z /\
  trim_audio signal sr start_time (Some end_time)
    = Ok (slice_channels signal start_sample end_sample) /\
  (forall c ch, channel signal c = Some ch ->
     exists ch', channel (slice_channels signal start_sample end_sample) c = Some ch' /\
       length ch' = Z.to_nat (end_sample - start_sample) /\
       forall i, (i < Z.to_nat (end_sample - start_sample))%nat ->
                 nth_error ch' i = nth_error ch (Z.to_nat start_sample + i)) /\
  (Z.abs ((end_sample - start_sample)
          - (spec_round (e * IZR sr) - spec_round (s * IZR sr))) <= 1)%Z /\
  (Z.abs ((end_sample - start_sample)
          - (spec_round (float_mul e (int_to_float sr))
             - spec_round (float_mul s (int_to_float sr)))) <= 1)%Z.
Proof.
  intros Hwf Hsr Hbig s e H0 Hlt Hend start_sample end_sample.
  destruct (sample_bounds _ sr s e ltac:(lia) Hbig H0 ltac:(lra) Hend)
    as (Hse & HeN & Hserr & Heerr & Hsi & Hei).
  rewrite <- (int_to_float_exact sr) in Hse, HeN, Hsi, Hei, Hserr at 1, Heerr at 1
    by lia.
  fold start_sample end_sample in Hse, HeN, Hsi, Hei.
  split; [exact Hse|]. split; [exact HeN|]. split; [|split; [|split]].
  - rewrite trim_audio_checks by lia. cbv zeta. fold s. fold e.
    destruct (Rlt_dec s 0) as [Hneg|_]; [lra|].
    destruct (Rgt_dec e _) as [Hgt|_]; [lra|].
    destruct (Rge_dec s e) as [Hge|_]; [lra|].
    reflexivity.
  - intros c ch Hc.
    pose proof (well_formed_channel signal c ch Hwf Hc) as Hlen.
    assert (Hhi : (end_sample <= Z.of_nat (length ch))%Z) by (rewrite Hlen; exact HeN).
    exists (py_slice ch (Some start_sample) (Some end_sample)). split; [|split].
    + destruct signal as [v|rows]; simpl in *.
      * destruct c; [|discriminate]. injection Hc as ->. reflexivity.
      * rewrite nth_error_map, Hc. reflexivity.
    + apply py_slice_inside; assumption.
    + intros i Hi. apply nth_error_py_slice; assumption.
  - destruct (index_near_round (e * IZR sr) _ Heerr) as [Hre|Hre];
      destruct (index_near_round (s * IZR sr) _ Hserr) as [Hrs|Hrs];
      rewrite Hre, Hrs, <- Hsi, <- Hei; fold start_sample end_sample; lia.
  - destruct (spec_round_floor (float_mul e (int_to_float sr))) as [Hre|Hre];
      destruct (spec_round_floor (float_mul s (int_to_float sr))) as [Hrs|Hrs];
      rewrite Hre, Hrs; unfold start_sample, end_sample in Hsi, Hei;
      rewrite <- Hsi, <- Hei; fold start_sample end_sample; lia.
Qed.

Lemma trim_audio_slices_witness :
  trim_audio (Mono [1; 2; 3; 4; 5; 6; 7; 8; 9; 10]) 10 (6 / 100) (Some (1 / 2))
    = Ok (slice_channels (Mono [1; 2; 3; 4; 5; 6; 7; 8; 9; 10])
            (py_int (float_mul (py_float (6 / 100)) (int_to_float 10)))
            (py_int (float_mul (py_float (1 / 2)) (int_to_float 10)))).
Proof.
  pose proof (round_float64_near (6 / 100)) as Hs.
  pose proof (round_float64_near (1 / 2)) as He.
  pose proof (round_float64_near (IZR 10 / IZR 10)) as Hd.
  unfold eps64 in Hs, He, Hd.
  apply (trim_audio_slices (Mono [1; 2; 3; 4; 5; 6; 7; 8; 9; 10]) 10 (6 / 100) (1 / 2)).
  - exact I.
  - lia.
  - simpl. lia.
  - unfold py_float. lra.
  - unfold py_float. lra.
  - unfold py_float. simpl. lra.
Defined.

(** C3 as the spec words it fails: at 10 Hz the times 0.06 s and 0.5 s
    select the samples [[0, 5)], not [[round(0.6), round(5.0)) = [1, 5)]. *)
Lemma trim_audio_not_rounded :
  trim_audio (Mono [1; 2; 3; 4; 5; 6; 7; 8; 9; 10]) 10 (6 / 100) (Some (1 / 2))
    = Ok (Mono [1; 2; 3; 4; 5]) /\
  slice_channels (Mono [1; 2; 3; 4; 5; 6; 7; 8; 9; 10])
    (spec_round (6 / 100 * IZR 10)) (spec_round (1 / 2 * IZR 10))
    = Mono [2; 3; 4; 5] /\
  trim_audio (Mono [1; 2; 3; 4; 5; 6; 7; 8; 9; 10]) 10 (6 / 100) (Some (1 / 2))
    <> Ok (slice_channels (Mono [1; 2; 3; 4; 5; 6; 7; 8; 9; 10])
             (spec_round (6 / 100 * IZR 10)) (spec_round (1 / 2 * IZR 10))).
Proof.
  assert (Hcode :
    trim_audio (Mono [1; 2; 3; 4; 5; 6; 7; 8; 9; 10]) 10 (6 / 100) (Some (1 / 2))
      = Ok (Mono [1; 2; 3; 4; 5])).
  { rewrite trim_audio_checks by discriminate. cbv zeta.
    rewrite int_to_float_exact by lia. unfold py_float, float_mul.
    cbn [num_samples length Z.of_nat].
    rewrite (round_float64_exact (1 / 2) 0 4503599627370496) by (simpl; lra).
    replace (IZR (Z.pos (Pos.of_succ_nat 9)) / IZR 10) with 1 by (simpl; lra).
    rewrite (round_float64_exact 1 1 4503599627370496) by (simpl; lra).
    rewrite (round_float64_exact (1 / 2 * IZR 10) 3 5629499534213120) by (simpl; lra).
    pose proof (round_float64_between (6 / 100) (6 / 100) (6 / 100)
                  ltac:(lra) ltac:(lra)) as Hs.
    unfold eps64 in Hs.
    pose proof (round_float64_between (round_float64 (6 / 100) * IZR 10)
                  (5 / 10) (7 / 10) ltac:(lra) ltac:(lra)) as Hp.
    unfold eps64 in Hp.
    destruct (Rlt_dec _ _) as [H|_]; [lra|].
    destruct (Rgt_dec _ _) as [H|_]; [lra|].
    destruct (Rge_dec _ _) as [H|_]; [lra|].
    rewrite (py_int_eq 0 (round_float64 (round_float64 (6 / 100) * IZR 10))) by lra.
    rewrite (py_int_eq 5 (1 / 2 * IZR 10)) by lra.
    reflexivity. }
  assert (Hspec :
    slice_channels (Mono [1; 2; 3; 4; 5; 6; 7; 8; 9; 10])
      (spec_round (6 / 100 * IZR 10)) (spec_round (1 / 2 * IZR 10))
      = Mono [2; 3; 4; 5]).
  { rewrite (spec_round_above 0 (6 / 100 * IZR 10)) by lra.
    rewrite (spec_round_below 5 (1 / 2 * IZR 10)) by lra.
    reflexivity. }
  split; [exact Hcode|]. split; [exact Hspec|].
  rewrite Hcode, Hspec. intros Heq.
  injection Heq as _ _ _ _ Hlast. discriminate Hlast.
Qed.

(** ** Equalizer *)

Lemma add_band_inactive (band_gains_db : dict) (sr : Z) (acc : list (list R))
    (band : String.string * R) :
  band_inactive band_gains_db sr band -> add_band band_gains_db sr acc band = acc.
Proof.
  destruct band as [band_name centre_freq]. unfold band_inactive, add_band. simpl.
  intros [Hflat|Hnyq].
  - destruct (Rlt_dec _ _) as [_|Hn]; [reflexivity | contradiction].
  - destruct (Rlt_dec _ _) as [_|_]; [reflexivity|].
    destruct (Rge_dec _ _) as [_|Hn]; [reflexivity | contradiction].
Qed.

Lemma fold_bands_inactive (band_gains_db : dict) (sr : Z) (bands : dict)
    (acc : list (list R)) :
  Forall (band_inactive band_gains_db sr) bands ->
  fold_left (add_band band_gains_db sr) bands acc = acc.
Proof.
  intros Hall. revert acc. induction Hall as [|band bands Hband _ IH]; intros acc.
  - reflexivity.
  - simpl. rewrite add_band_inactive by exact Hband. apply IH.
Qed.

Lemma flat_band_inactive (sr : Z) (band : String.string * R) :
  In band BANDS -> band_inactive [] sr band /\ band_inactive flat_gains sr band.
Proof.
  assert (Hz : Rabs 0 < 1 / 100) by (rewrite Rabs_R0; lra).
  unfold BANDS. simpl.
  intros H; repeat (destruct H as [<-|H]; [split; left; exact Hz|]); contradiction.
Qed.

(** C7.  When every band is inactive the equalizer returns the input itself,
    without normalising it; this is so for the default gains and for seven
    gains of 0 dB. *)
Theorem equalizer_bypass `{DSPBackend} (signal : ndarray) (sr : Z)
    (band_gains_db : dict) :
  Forall (band_inactive band_gains_db sr) BANDS ->
  equalizer signal sr (Some band_gains_db) = Ok signal /\
  equalizer signal sr None = Ok signal /\
  equalizer signal sr (Some flat_gains) = Ok signal.
Proof.
  intros Hall.
  assert (Hby : forall d, Forall (band_inactive d sr) BANDS ->
                          build_sos_sections d sr = []).
  { intros d Hd. unfold build_sos_sections. apply fold_bands_inactive. exact Hd. }
  unfold equalizer. repeat split.
  - rewrite Hby by exact Hall. reflexivity.
  - rewrite Hby; [reflexivity|].
    apply Forall_forall. intros band Hin. apply (flat_band_inactive sr band Hin).
  - rewrite Hby; [reflexivity|].
    apply Forall_forall. intros band Hin. apply (flat_band_inactive sr band Hin).
Qed.

Lemma equalizer_bypass_witness :
  @equalizer identity_backend (Mono [1 / 2; - (1 / 4)]) 8000
     (Some [("presence"%string, 6); ("brilliance"%string, -3);
            ("bass"%string, 5 / 1000)])
    = Ok (Mono [1 / 2; - (1 / 4)]).
Proof.
  apply (@equalizer_bypass identity_backend (Mono [1 / 2; - (1 / 4)]) 8000).
  unfold BANDS.
  repeat (apply Forall_cons;
          [unfold band_inactive, dict_get; simpl;
           first [right; lra | left; eval_max_abs]|]).
  apply Forall_nil.
Defined.

(** ** The pipeline *)

Lemma default_target_peak_nonneg : 0 <= default_target_peak.
Proof. unfold default_target_peak. lra. Qed.

(** The effect functions that end in [peak_normalize] return a normalised
    buffer: pitch shift, reverb, stereo widening, 8D audio, and the equalizer
    with at least one active band. *)
Lemma self_normalizing_effects `{DSPBackend} (signal : ndarray) (sr : Z) (out : ndarray) :
  ((exists semitones, pitch_shift signal sr semitones = Ok out) \/
     (exists decay delay_ms, reverb signal sr decay delay_ms = Ok out) \/
     (exists delay_ms gain_diff_db,
        stereo_widen signal sr delay_ms gain_diff_db = Ok out) \/
     (exists pan_speed_hz intensity crossfeed,
        eight_d_audio signal sr pan_speed_hz intensity crossfeed = Ok out) \/
     (exists gains, build_sos_sections gains sr <> [] /\
                    equalizer signal sr (Some gains) = Ok out) ->
   exists p, peak out = Ok p /\ (p = 0 \/ p = default_target_peak)).
Proof.
  intros Hcase.
  pose proof default_target_peak_nonneg as Ht.
  destruct Hcase as [(semitones & Hp)|[(decay & delay_ms & Hr)|[(delay_ms & g & Hs)|
                    [(pan & i & c & He)|(gains & Hact & Hq)]]]].
  - unfold pitch_shift in Hp. eapply peak_normalize_peak; eassumption.
  - unfold reverb in Hr. apply bind_Ok_inv in Hr. destruct Hr as (mix & _ & Hn).
    eapply peak_normalize_peak; eassumption.
  - unfold stereo_widen in Hs. apply bind_Ok_inv in Hs. destruct Hs as (mix & _ & Hn).
    eapply peak_normalize_peak; eassumption.
  - unfold eight_d_audio in He. apply bind_Ok_inv in He. destruct He as (mix & _ & Hn).
    eapply peak_normalize_peak; eassumption.
  - unfold equalizer in Hq.
    destruct (build_sos_sections gains sr) as [|sos rest]; [contradiction Hact; reflexivity|].
    eapply peak_normalize_peak; eassumption.
Qed.

(** C5, as the code has it.  Whatever the effect, the buffer that the
    pipeline produces (the effect, then [peak_normalize]) has peak 0.95
    unless it is silent. *)
Theorem process_audio_normalized `{DSPBackend} (signal : ndarray) (sr : Z)
    (effect : EffectName) (parameters : dict) (out : ndarray) :
  process_audio signal sr effect parameters = Ok out ->
  exists p, peak out = Ok p /\ (p = 0 \/ p = default_target_peak).
Proof.
  unfold process_audio. intros Hout.
  apply bind_Ok_inv in Hout. destruct Hout as (processed & _ & Hnorm).
  eapply peak_normalize_peak; [apply default_target_peak_nonneg | exact Hnorm].
Qed.

Lemma process_audio_normalized_witness :
  exists p, peak (scale (Mono [1 / 4; 1 / 2]) (default_target_peak / (1 / 2))) = Ok p /\
            (p = 0 \/ p = default_target_peak).
Proof.
  apply (@process_audio_normalized identity_backend (Mono [1 / 2; 1 / 4]) 44100
           REVERSE []).
  unfold process_audio, _apply_effect, reverse_audio. cbn [bind rev app].
  apply peak_normalize_scaled; [eval_peak | lra].
Defined.

(** C5 as the spec words it fails: [reverse_audio] returns its result
    without normalising it. *)
Lemma reverse_audio_not_normalized :
  reverse_audio (Mono [1 / 2; 1 / 4]) 44100 = Mono [1 / 4; 1 / 2] /\
  peak (reverse_audio (Mono [1 / 2; 1 / 4]) 44100) = Ok (1 / 2) /\
  1 / 2 <> 0 /\ 1 / 2 <> default_target_peak.
Proof.
  split; [reflexivity|]. split; [simpl; eval_peak|].
  unfold default_target_peak. split; lra.
Qed.

(** ** Element-wise operations *)

Lemma length_map2 (f : R -> R -> R) (a b : list R) :
  length (map2 f a b) = Nat.min (length a) (length b).
Proof.
  revert b. induction a as [|x a IH]; intros [|y b]; simpl; try reflexivity.
  rewrite IH. reflexivity.
Qed.

Lemma map2_map (f : R -> R -> R) (g h : R -> R) (a b : list R) :
  map2 f (map g a) (map h b) = map2 (fun x y => f (g x) (h y)) a b.
Proof.
  revert b. induction a as [|x a IH]; intros [|y b]; simpl; try reflexivity.
  rewrite IH. reflexivity.
Qed.

Lemma map_map2 (g : R -> R) (f : R -> R -> R) (a b : list R) :
  map g (map2 f a b) = map2 (fun x y => g (f x y)) a b.
Proof.
  revert b. induction a as [|x a IH]; intros [|y b]; simpl; try reflexivity.
  rewrite IH. reflexivity.
Qed.

Lemma map2_left (f : R -> R -> R) (a b : list R) :
  length a = length b -> (forall x y, f x y = x) -> map2 f a b = a.
Proof.
  intros Hlen Hf. revert b Hlen.
  induction a as [|x a IH]; intros [|y b] Hlen; simpl in *; try discriminate.
  - reflexivity.
  - rewrite Hf, IH by (injection Hlen as Hl; exact Hl). reflexivity.
Qed.

Lemma nth_map2 (f : R -> R -> R) (a b : list R) (n : nat) :
  (n < length a)%nat -> (n < length b)%nat ->
  nth n (map2 f a b) 0 = f (nth n a 0) (nth n b 0).
Proof.
  revert a b. induction n as [|n IH]; intros [|x a] [|y b] Ha Hb; simpl in *; try lia.
  - reflexivity.
  - apply IH; lia.
Qed.

(** ** Shapes after normalisation *)

Lemma peak_normalize_shape (s : ndarray) (t : R) :
  flat s <> [] ->
  exists out, peak_normalize s t = Ok out /\
    num_channels out = num_channels s /\
    num_samples out = num_samples s /\
    (exists k, out = scale s k /\ (t <> 0 -> k <> 0)).
Proof.
  intros Hne. unfold peak_normalize. fold (peak s). rewrite peak_eq.
  destruct (flat s) as [|x l] eqn:Hflat; [contradiction Hne; reflexivity|].
  cbn [bind]. destruct (Req_dec_T _ 0) as [_|Hp].
  - exists s. repeat split. exists 1. split; [|intros _; lra]. unfold scale.
    destruct s as [v|rows]; simpl; f_equal.
    + rewrite <- (map_id v) at 1. apply map_ext. intros; ring.
    + rewrite <- (map_id rows) at 1. apply map_ext. intros r.
      rewrite <- (map_id r) at 1. apply map_ext. intros; ring.
  - eexists. split; [reflexivity|].
    assert (Hk : t <> 0 -> t / max_abs (x :: l) <> 0).
    { intros Ht Hz. apply Hp. unfold Rdiv in Hz.
      apply Rmult_integral in Hz. destruct Hz as [Hz|Hz]; [contradiction|].
      exfalso. revert Hz. apply Rinv_neq_0_compat. exact Hp. }
    destruct s as [v|rows]; simpl; repeat split.
    + apply length_map.
    + eexists; split; [reflexivity | exact Hk].
    + apply length_map.
    + destruct rows; simpl; [reflexivity | apply length_map].
    + eexists; split; [reflexivity | exact Hk].
Qed.

(** ** 8D audio *)

Lemma ensure_stereo_rows (signal : ndarray) :
  stereo_ready signal ->
  exists s0 s1 rest, ensure_stereo signal = s0 :: s1 :: rest /\
    length s0 = num_samples signal /\ length s1 = num_samples signal.
Proof.
  intros [Hwf Hlen]. destruct signal as [v|rows]; simpl in *.
  - exists v, v, []. repeat split.
  - destruct rows as [|s0 [|s1 rest]]; simpl in Hlen; try lia.
    exists s0, s1, rest. destruct Hwf as (n & Hrect).
    inversion Hrect as [|? ? H0 Hrest]; subst.
    inversion Hrest as [|? ? H1 _]; subst.
    repeat split. simpl. rewrite H1. reflexivity.
Qed.

Lemma eight_d_pan_lengths (signal : ndarray) (sr : Z) (pan_speed_hz intensity : R) :
  stereo_ready signal ->
  exists left_pan right_pan,
    eight_d_pan (ensure_stereo signal) sr pan_speed_hz intensity
      = Ok (left_pan, right_pan) /\
    length left_pan = num_samples signal /\
    length right_pan = num_samples signal.
Proof.
  intros Hready.
  destruct (ensure_stereo_rows signal Hready) as (s0 & s1 & rest & Hrows & H0 & H1).
  unfold eight_d_pan. rewrite Hrows. cbn [row nth_error bind hd].
  eexists. eexists. split; [reflexivity|].
  repeat (rewrite length_map2 || rewrite length_map || rewrite length_seq).
  rewrite H0, H1. split; lia.
Qed.

Lemma crossfeed_step_sequential (crossfeed : R) (left_pan right_pan : list R) :
  0 <= crossfeed -> length left_pan = length right_pan ->
  crossfeed_step crossfeed left_pan right_pan
    = crossfeed_sequential crossfeed left_pan right_pan.
Proof.
  intros Hc Hlen. unfold crossfeed_step, crossfeed_sequential.
  destruct (Rgt_dec crossfeed 0) as [Hpos|Hzero].
  - rewrite !map2_map. reflexivity.
  - assert (Hc0 : crossfeed = 0) by lra. subst crossfeed.
    assert (Hl : map2 (fun l r => l * (1 - 0) + r * 0) left_pan right_pan = left_pan)
      by (apply map2_left; [exact Hlen | intros; ring]).
    rewrite Hl.
    rewrite map2_left; [reflexivity | symmetry; exact Hlen | intros; ring].
Qed.

(** C8.  For a crossfeed within its bounds, the two output channels of
    [eight_d_audio] are, before the final normalisation, the panned left
    channel blended with the panned right one, and the panned right channel
    blended with that already blended left channel; every channel keeps the
    length [N] of the input, and so does the normalised result. *)
Theorem eight_d_crossfeed_sequential (signal : ndarray) (sr : Z)
    (pan_speed_hz intensity crossfeed : R) :
  stereo_ready signal ->
  0 <= crossfeed <= 6 / 10 ->
  exists left_pan right_pan left_out right_out,
    eight_d_pan (ensure_stereo signal) sr pan_speed_hz intensity
      = Ok (left_pan, right_pan) /\
    left_out = map2 (fun l r => l * (1 - crossfeed) + r * crossfeed)
                    left_pan right_pan /\
    right_out = map2 (fun r l' => r * (1 - crossfeed) + l' * crossfeed)
                     right_pan left_out /\
    (forall n, (n < num_samples signal)%nat ->
       nth n left_out 0
         = nth n left_pan 0 * (1 - crossfeed) + nth n right_pan 0 * crossfeed /\
       nth n right_out 0
         = nth n right_pan 0 * (1 - crossfeed)
           + (nth n left_pan 0 * (1 - crossfeed) + nth n right_pan 0 * crossfeed)
             * crossfeed) /\
    length left_out = num_samples signal /\
    length right_out = num_samples signal /\
    eight_d_mix signal sr pan_speed_hz intensity crossfeed
      = Ok (Multi [left_out; right_out]) /\
    eight_d_audio signal sr pan_speed_hz intensity crossfeed
      = peak_normalize (Multi [left_out; right_out]) default_target_peak /\
    ((0 < num_samples signal)%nat ->
       exists out, eight_d_audio signal sr pan_speed_hz intensity crossfeed = Ok out /\
         num_channels out = 2%nat /\
         num_samples out = num_samples signal /\
         exists k, out = scale (Multi [left_out; right_out]) k).
Proof.
  intros Hready [Hc0 Hc1].
  destruct (eight_d_pan_lengths signal sr pan_speed_hz intensity Hready)
    as (left_pan & right_pan & Hpan & Hl & Hr).
  set (left_out := map2 (fun l r => l * (1 - crossfeed) + r * crossfeed)
                        left_pan right_pan).
  set (right_out := map2 (fun r l' => r * (1 - crossfeed) + l' * crossfeed)
                         right_pan left_out).
  assert (Hlo : length left_out = num_samples signal)
    by (unfold left_out; rewrite length_map2; lia).
  assert (Hro : length right_out = num_samples signal)
    by (unfold right_out; rewrite length_map2; lia).
  assert (Hmix : eight_d_mix signal sr pan_speed_hz intensity crossfeed
                 = Ok (Multi [left_out; right_out])).
  { unfold eight_d_mix. rewrite Hpan. cbn [bind fst snd].
    rewrite crossfeed_step_sequential by (try exact Hc0; congruence).
    reflexivity. }
  exists left_pan, right_pan, left_out, right_out.
  split; [exact Hpan|]. split; [reflexivity|]. split; [reflexivity|].
  split; [|split; [exact Hlo|split; [exact Hro|split; [exact Hmix|split]]]].
  - intros n Hn.
    assert (Hleft : nth n left_out 0
              = nth n left_pan 0 * (1 - crossfeed) + nth n right_pan 0 * crossfeed)
      by (unfold left_out; rewrite nth_map2 by lia; reflexivity).
    split; [exact Hleft|].
    unfold right_out. rewrite nth_map2 by lia. rewrite Hleft. reflexivity.
  - unfold eight_d_audio. rewrite Hmix. reflexivity.
  - intros HN. unfold eight_d_audio. rewrite Hmix. cbn [bind].
    destruct (peak_normalize_shape (Multi [left_out; right_out]) default_target_peak)
      as (out & Hout & Hch & Hns & k & Hk & _).
    { simpl. destruct left_out; [simpl in Hlo; lia | discriminate]. }
    exists out. split; [exact Hout|]. split; [exact Hch|].
    split; [rewrite Hns; exact Hlo | exists k; exact Hk].
Qed.

Lemma eight_d_crossfeed_sequential_witness :
  exists left_pan right_pan left_out right_out,
    eight_d_pan (ensure_stereo (Mono [1 / 2; 1 / 4])) 44100 (15 / 100) (8 / 10)
      = Ok (left_pan, right_pan) /\
    left_out = map2 (fun l r => l * (1 - 3 / 10) + r * (3 / 10)) left_pan right_pan /\
    right_out = map2 (fun r l' => r * (1 - 3 / 10) + l' * (3 / 10)) right_pan left_out /\
    eight_d_mix (Mono [1 / 2; 1 / 4]) 44100 (15 / 100) (8 / 10) (3 / 10)
      = Ok (Multi [left_out; right_out]).
Proof.
  destruct (eight_d_crossfeed_sequential (Mono [1 / 2; 1 / 4]) 44100
              (15 / 100) (8 / 10) (3 / 10))
    as (left_pan & right_pan & left_out & right_out & H1 & H2 & H3 & _ & _ & _ & H4 & _).
  - split; [exact I | simpl; lia].
  - lra.
  - exists left_pan, right_pan, left_out, right_out. repeat split; assumption.
Defined.

(** ** Delay in samples *)

Lemma py_int_div (a : Z) :
  (0 <= a)%Z -> py_int (IZR a / 1000) = (a / 1000)%Z /\ (0 <= a / 1000)%Z.
Proof.
  intros Ha.
  pose proof (Z.div_mod a 1000 ltac:(lia)) as Hdm.
  pose proof (Z.mod_pos_bound a 1000 ltac:(lia)) as Hr.
  assert (Hq : (0 <= a / 1000)%Z) by (apply Z.div_pos; lia).
  split; [|exact Hq].
  assert (HR : IZR a = 1000 * IZR (a / 1000) + IZR (a mod 1000)).
  { rewrite Hdm at 1. rewrite plus_IZR, mult_IZR. reflexivity. }
  assert (H0 : 0 <= IZR (a mod 1000)) by (apply IZR_le; lia).
  assert (H1 : IZR (a mod 1000) <= 999) by (apply IZR_le; lia).
  assert (H2 : 0 <= IZR (a / 1000)) by (apply IZR_le; exact Hq).
  apply py_int_eq; lra.
Qed.

Lemma delay_in_samples_eq (sr delay_ms : Z) :
  (0 < sr)%Z -> (0 <= delay_ms)%Z ->
  delay_in_samples sr delay_ms = (sr * delay_ms / 1000)%Z /\
  (0 <= sr * delay_ms / 1000)%Z.
Proof.
  intros Hsr Hd. unfold delay_in_samples. apply py_int_div. lia.
Qed.

(** ** Stereo widening *)

Lemma gain_factor_lt_1 (gain_diff_db : R) :
  0 < gain_diff_db -> 0 < gain_factor gain_diff_db < 1.
Proof.
  intros Hg. unfold gain_factor. split.
  - unfold Rpower. apply exp_pos.
  - rewrite <- (Rpower_O 10) by lra. apply Rpower_lt; lra.
Qed.

Lemma map2_map2 (f g h : R -> R -> R) (a b : list R) :
  map2 f (map2 g a b) (map2 h a b) = map2 (fun x y => f (g x y) (h x y)) a b.
Proof.
  revert b. induction a as [|x a IH]; intros [|y b]; simpl; try reflexivity.
  rewrite IH. reflexivity.
Qed.

Lemma map2_eq_inv (f g : R -> R -> R) (a b : list R) :
  length a = length b ->
  (forall x y, f x y = g x y -> x = y) ->
  map2 f a b = map2 g a b -> a = b.
Proof.
  intros Hlen Hfg. revert b Hlen.
  induction a as [|x a IH]; intros [|y b] Hlen Heq; simpl in *; try discriminate.
  - reflexivity.
  - injection Heq as Hxy Hrest. injection Hlen as Hlen.
    rewrite (Hfg x y Hxy), (IH b Hlen Hrest). reflexivity.
Qed.

Lemma nth_scaled (l : list R) (g : R) (j : nat) :
  nth j (map (fun x => x * g) l) 0 = nth j l 0 * g.
Proof.
  rewrite <- (map_nth (fun x => x * g) l 0 j). f_equal. ring.
Qed.

Lemma nth_zeros (d j : nat) : nth j (repeat 0 d) 0 = 0.
Proof.
  destruct (Nat.lt_ge_cases j d) as [Hlt|Hge].
  - apply nth_repeat_lt. exact Hlt.
  - apply nth_overflow. rewrite repeat_length. exact Hge.
Qed.

(** A signal that coincides with a delayed, attenuated copy of itself is
    silent. *)
Lemma delayed_copy_silent (v : list R) (d : nat) (g : R) :
  (0 < d)%nat \/ g <> 1 ->
  v ++ repeat 0 d = map (fun x => x * g) (repeat 0 d ++ v) ->
  silent v.
Proof.
  intros Hdg Heq.
  assert (Hnth : forall j, nth j (v ++ repeat 0 d) 0 = nth j (repeat 0 d ++ v) 0 * g)
    by (intros j; rewrite Heq; apply nth_scaled).
  assert (Hall : forall j, (j < length v)%nat -> nth j v 0 = 0).
  { intros j. induction j as [j IH] using lt_wf_ind. intros Hj.
    specialize (Hnth j). rewrite app_nth1 in Hnth by exact Hj.
    destruct (Nat.lt_ge_cases j d) as [Hlt|Hge].
    - rewrite app_nth1 in Hnth by (rewrite repeat_length; exact Hlt).
      rewrite nth_zeros in Hnth. lra.
    - rewrite app_nth2 in Hnth by (rewrite repeat_length; exact Hge).
      rewrite repeat_length in Hnth.
      destruct Hdg as [Hd|Hg].
      + rewrite (IH (j - d)%nat) in Hnth by lia. lra.
      + destruct (Nat.eq_dec d 0) as [Hd0|Hdpos].
        * subst d. rewrite Nat.sub_0_r in Hnth.
          assert (Hprod : nth j v 0 * (1 - g) = 0) by lra.
          apply Rmult_integral in Hprod. destruct Hprod as [Hz|Hz]; [exact Hz | lra].
        * rewrite (IH (j - d)%nat) in Hnth by lia. lra. }
  unfold silent. apply Forall_forall. intros x Hin.
  destruct (In_nth v x 0 Hin) as (j & Hj & <-). apply Hall. exact Hj.
Qed.

Lemma stereo_widen_mix_mono (v : list R) (sr delay_ms : Z) (gain_diff_db : R) :
  (0 < sr)%Z -> (0 <= delay_ms)%Z ->
  let zeros := repeat 0 (Z.to_nat (sr * delay_ms / 1000)) in
  let left_padded := v ++ zeros in
  let right_delayed := map (fun x => x * gain_factor gain_diff_db) (zeros ++ v) in
  stereo_widen_mix (Mono v) sr delay_ms gain_diff_db =
    Ok (Multi
          [map2 (fun l r => (l + r) / 2 + (l - r) / 2 * (13 / 10))
                left_padded right_delayed;
           map2 (fun l r => (l + r) / 2 - (l - r) / 2 * (13 / 10))
                left_padded right_delayed]).
Proof.
  intros Hsr Hd zeros left_padded right_delayed.
  destruct (delay_in_samples_eq sr delay_ms Hsr Hd) as [Hdel Hnn].
  unfold stereo_widen_mix. cbn [ensure_stereo row nth_error bind].
  rewrite Hdel. unfold np_zeros.
  destruct (Z.ltb_spec (sr * delay_ms / 1000) 0) as [Hneg|_]; [lia|].
  cbn [bind]. fold zeros. fold left_padded. fold right_delayed.
  rewrite !map_map, !map_map2, !map2_map2. reflexivity.
Qed.

Lemma map_scale_inj (k : R) (a b : list R) :
  k <> 0 -> map (fun x => x * k) a = map (fun x => x * k) b -> a = b.
Proof.
  intros Hk. revert b. induction a as [|x a IH]; intros [|y b] Heq; simpl in *;
    try discriminate.
  - reflexivity.
  - injection Heq as Hxy Hrest. f_equal.
    + apply (Rmult_eq_reg_r k); assumption.
    + apply IH. exact Hrest.
Qed.

(** C9, as the code has it.  On a mono input of length [N], with
    [delay_samples = int(sr * delay_ms / 1000)], [stereo_widen] returns two
    channels of length [N + delay_samples] each (when that is not zero); with
    [gain_diff_db > 0] the two channels differ as soon as the input is not
    silent. *)
Theorem stereo_widen_mono (v : list R) (sr delay_ms : Z) (gain_diff_db : R) :
  (0 < sr)%Z ->
  (5 <= delay_ms <= 20)%Z ->
  0 <= gain_diff_db <= 6 ->
  let delay_samples := Z.to_nat (sr * delay_ms / 1000) in
  (0 < length v + delay_samples)%nat ->
  delay_in_samples sr delay_ms = Z.of_nat delay_samples /\
  exists out_left out_right,
    stereo_widen (Mono v) sr delay_ms gain_diff_db = Ok (Multi [out_left; out_right]) /\
    length out_left = (length v + delay_samples)%nat /\
    length out_right = (length v + delay_samples)%nat /\
    (0 < gain_diff_db -> ~ silent v -> out_left <> out_right).
Proof.
  intros Hsr Hd Hg delay_samples Hlen.
  destruct (delay_in_samples_eq sr delay_ms Hsr ltac:(lia)) as [Hdel Hnn].
  split; [rewrite Hdel; unfold delay_samples; lia|].
  pose proof (stereo_widen_mix_mono v sr delay_ms gain_diff_db Hsr ltac:(lia)) as Hmix.
  cbv zeta in Hmix. fold delay_samples in Hmix.
  set (left_padded := v ++ repeat 0 delay_samples) in *.
  set (right_delayed := map (fun x => x * gain_factor gain_diff_db)
                            (repeat 0 delay_samples ++ v)) in *.
  set (new_left := map2 (fun l r => (l + r) / 2 + (l - r) / 2 * (13 / 10))
                        left_padded right_delayed) in *.
  set (new_right := map2 (fun l r => (l + r) / 2 - (l - r) / 2 * (13 / 10))
                         left_padded right_delayed) in *.
  assert (HL : length left_padded = (length v + delay_samples)%nat)
    by (unfold left_padded; rewrite length_app, repeat_length; reflexivity).
  assert (HR : length right_delayed = (length v + delay_samples)%nat)
    by (unfold right_delayed; rewrite length_map, length_app, repeat_length; lia).
  assert (Hnl : length new_left = (length v + delay_samples)%nat)
    by (unfold new_left; rewrite length_map2; lia).
  assert (Hnr : length new_right = (length v + delay_samples)%nat)
    by (unfold new_right; rewrite length_map2; lia).
  destruct (peak_normalize_shape (Multi [new_left; new_right]) default_target_peak)
    as (out & Hout & _ & _ & k & Hk & Hk0).
  { simpl. destruct new_left; [simpl in Hnl; lia | discriminate]. }
  assert (Hkne : k <> 0) by (apply Hk0; unfold default_target_peak; lra).
  rewrite Hk in Hout. unfold scale in Hout. cbn [map_array map] in Hout.
  exists (map (fun x => x * k) new_left), (map (fun x => x * k) new_right).
  split; [|split; [|split]].
  - unfold stereo_widen. rewrite Hmix. exact Hout.
  - rewrite length_map. exact Hnl.
  - rewrite length_map. exact Hnr.
  - intros Hpos Hloud Hsame. apply Hloud.
    apply (delayed_copy_silent v delay_samples (gain_factor gain_diff_db)).
    + right. pose proof (gain_factor_lt_1 gain_diff_db Hpos). lra.
    + apply map_scale_inj in Hsame; [|exact Hkne].
      fold left_padded. fold right_delayed.
      apply (map2_eq_inv _ _ left_padded right_delayed) in Hsame.
      * exact Hsame.
      * lia.
      * intros x y Hxy. lra.
Qed.

Lemma stereo_widen_mono_witness :
  delay_in_samples 1000 5 = Z.of_nat (Z.to_nat (1000 * 5 / 1000)) /\
  exists out_left out_right,
    stereo_widen (Mono [1; 2]) 1000 5 3 = Ok (Multi [out_left; out_right]) /\
    length out_left = (2 + Z.to_nat (1000 * 5 / 1000))%nat /\
    length out_right = (2 + Z.to_nat (1000 * 5 / 1000))%nat /\
    (0 < 3 -> ~ silent [1; 2] -> out_left <> out_right).
Proof.
  apply (stereo_widen_mono [1; 2] 1000 5 3).
  - lia.
  - lia.
  - lra.
  - simpl. lia.
Defined.

(** C9 as the spec words it fails on a silent input: both output
    channels are the same six zeros although [gain_diff_db = 3 > 0]. *)
Lemma stereo_widen_silent_identical :
  0 < 3 /\
  stereo_widen (Mono [0]) 1000 5 3
    = Ok (Multi [[0; 0; 0; 0; 0; 0]; [0; 0; 0; 0; 0; 0]]).
Proof.
  split; [lra|].
  unfold stereo_widen.
  rewrite stereo_widen_mix_mono by lia.
  replace (Z.to_nat (1000 * 5 / 1000)) with 5%nat by reflexivity.
  cbn [repeat app map map2 bind].
  assert (Hmix : forall g,
    Multi [[(0 + 0 * g) / 2 + (0 - 0 * g) / 2 * (13 / 10);
            (0 + 0 * g) / 2 + (0 - 0 * g) / 2 * (13 / 10);
            (0 + 0 * g) / 2 + (0 - 0 * g) / 2 * (13 / 10);
            (0 + 0 * g) / 2 + (0 - 0 * g) / 2 * (13 / 10);
            (0 + 0 * g) / 2 + (0 - 0 * g) / 2 * (13 / 10);
            (0 + 0 * g) / 2 + (0 - 0 * g) / 2 * (13 / 10)];
           [(0 + 0 * g) / 2 - (0 - 0 * g) / 2 * (13 / 10);
            (0 + 0 * g) / 2 - (0 - 0 * g) / 2 * (13 / 10);
            (0 + 0 * g) / 2 - (0 - 0 * g) / 2 * (13 / 10);
            (0 + 0 * g) / 2 - (0 - 0 * g) / 2 * (13 / 10);
            (0 + 0 * g) / 2 - (0 - 0 * g) / 2 * (13 / 10);
            (0 + 0 * g) / 2 - (0 - 0 * g) / 2 * (13 / 10)]]
    = Multi [[0; 0; 0; 0; 0; 0]; [0; 0; 0; 0; 0; 0]]).
  { intros g. repeat f_equal; field. }
  rewrite Hmix. apply peak_normalize_silent. apply peak_silent.
  - discriminate.
  - unfold silent. simpl. repeat constructor.
Qed.

(** ** Slice updates *)

Lemma broadcast_to_same (v : list R) : broadcast_to (length v) v = Ok v.
Proof. unfold broadcast_to. rewrite Nat.eqb_refl. reflexivity. Qed.

Lemma slice_update_inside (f : R -> R -> R) (a : list R) (start : option Z)
    (lo : nat) (v : list R) :
  (lo + length v <= length a)%nat ->
  start = Some (Z.of_nat lo) \/ (start = None /\ lo = 0%nat) ->
  slice_update f a start (Some (Z.of_nat (lo + length v))) v
    = Ok (firstn lo a ++ map2 f (firstn (length v) (skipn lo a)) v
          ++ skipn (lo + length v) a).
Proof.
  intros Hfit Hstart. unfold slice_update.
  assert (Hlo : slice_lo (Z.of_nat (length a)) start = Z.of_nat lo).
  { destruct Hstart as [->|[-> ->]]; simpl; [|reflexivity].
    unfold slice_index. destruct (Z.ltb_spec (Z.of_nat lo) 0); lia. }
  assert (Hhi : slice_hi (Z.of_nat (length a)) (Some (Z.of_nat (lo + length v)))
                = Z.of_nat (lo + length v)).
  { simpl. unfold slice_index.
    destruct (Z.ltb_spec (Z.of_nat (lo + length v)) 0); lia. }
  rewrite Hhi, Hlo.
  replace (Z.to_nat (Z.of_nat (lo + length v) - Z.of_nat lo)) with (length v) by lia.
  rewrite Nat2Z.id, broadcast_to_same. reflexivity.
Qed.

Lemma updated_range (f : R -> R -> R) (a : list R) (lo : nat) (v : list R) :
  (lo + length v <= length a)%nat ->
  let a' := firstn lo a ++ map2 f (firstn (length v) (skipn lo a)) v
            ++ skipn (lo + length v) a in
  length a' = length a /\
  forall j, nth j a' 0 =
            if ((lo <=? j) && (j <? lo + length v))%nat
            then f (nth j a 0) (nth (j - lo) v 0)
            else nth j a 0.
Proof.
  intros Hfit a'.
  assert (H1 : length (firstn lo a) = lo) by (rewrite length_firstn; lia).
  assert (H2 : length (firstn (length v) (skipn lo a)) = length v)
    by (rewrite length_firstn, length_skipn; lia).
  assert (H3 : length (map2 f (firstn (length v) (skipn lo a)) v) = length v)
    by (rewrite length_map2, H2; lia).
  split.
  - unfold a'. rewrite !length_app, H1, H3, length_skipn. lia.
  - intros j. unfold a'.
    destruct (Nat.leb_spec lo j) as [Hle|Hlt]; cbn [andb].
    + rewrite app_nth2 by lia. rewrite H1.
      destruct (Nat.ltb_spec j (lo + length v)) as [Hin|Hout].
      * rewrite app_nth1 by lia. rewrite nth_map2 by lia.
        rewrite nth_firstn.
        destruct (Nat.ltb_spec (j - lo) (length v)) as [_|Hn]; [|lia].
        rewrite nth_skipn. do 2 f_equal. lia.
      * rewrite app_nth2 by lia. rewrite H3, nth_skipn. f_equal. lia.
    + rewrite app_nth1 by lia. rewrite nth_firstn.
      destruct (Nat.ltb_spec j lo) as [_|Hn]; [reflexivity | lia].
Qed.

Lemma py_slice_all (x : list R) :
  py_slice x None (Some (Z.of_nat (length x))) = x.
Proof.
  unfold py_slice, slice_lo, slice_hi, slice_index.
  destruct (Z.ltb_spec (Z.of_nat (length x)) 0) as [Hneg|_]; [lia|].
  rewrite Z.min_id, Z.sub_0_r, Nat2Z.id. simpl. apply firstn_all.
Qed.

(** ** Reverb *)

Section Reflections.

Variables (decay : R) (d : nat).

Lemma mixed_initial (x : list R) :
  exists out,
    slice_update (fun _ y => y) (repeat 0 (length x + 5 * d)) None
                 (Some (Z.of_nat (length x))) x = Ok out /\
    mixed decay d [] x out.
Proof.
  assert (Hfit : (0 + length x <= length (repeat 0%R (length x + 5 * d)))%nat)
    by (rewrite repeat_length; lia).
  pose proof (slice_update_inside (fun _ y => y) _ None 0 x Hfit
                (or_intror (conj eq_refl eq_refl))) as Hupd.
  pose proof (updated_range (fun _ y => y) _ 0 x Hfit) as [Hlen Hnth].
  change (0 + length x)%nat with (length x) in Hupd, Hlen, Hnth. rewrite Hupd.
  eexists. split; [reflexivity|]. split.
  - rewrite Hlen, repeat_length. reflexivity.
  - intros j. rewrite Hnth. simpl reflections. rewrite Nat.sub_0_r, nth_zeros.
    destruct (Nat.ltb_spec j (length x)) as [Hin|Hout]; simpl.
    + ring.
    + rewrite nth_overflow by exact Hout. ring.
Qed.

Lemma mixed_step (taps : list nat) (x out : list R) (i : nat) :
  (i <= 5)%nat -> mixed decay d taps x out ->
  exists out',
    add_reflection x decay (Z.of_nat d) (Z.of_nat (length x + 5 * d))
                   (Z.of_nat i) out = Ok out' /\
    mixed decay d (i :: taps) x out'.
Proof.
  intros Hi [Hlen Hnth]. unfold add_reflection.
  assert (Hend : (Z.of_nat d * Z.of_nat i + Z.of_nat (length x)
                  >? Z.of_nat (length x + 5 * d))%Z = false).
  { rewrite Z.gtb_ltb. apply Z.ltb_ge. nia. }
  rewrite Hend.
  replace (Z.of_nat d * Z.of_nat i + Z.of_nat (length x)
           - Z.of_nat d * Z.of_nat i)%Z with (Z.of_nat (length x)) by lia.
  rewrite py_slice_all.
  set (v := map (fun y => y * powerRZ decay (Z.of_nat i)) x).
  assert (Hv : length v = length x) by (unfold v; apply length_map).
  replace (Z.of_nat d * Z.of_nat i)%Z with (Z.of_nat (i * d)) by lia.
  replace (Z.of_nat (i * d) + Z.of_nat (length x))%Z
    with (Z.of_nat (i * d + length v)) by (rewrite Hv; lia).
  assert (Hfit : (i * d + length v <= length out)%nat) by (rewrite Hv; nia).
  rewrite (slice_update_inside Rplus out _ (i * d) v Hfit (or_introl eq_refl)).
  pose proof (updated_range Rplus out (i * d) v Hfit) as [Hlen' Hnth'].
  eexists. split; [reflexivity|]. split.
  - rewrite Hlen'. exact Hlen.
  - intros j. rewrite Hnth', Hnth, Hv.
    cbn [reflections fold_right]. fold (reflections x decay d taps j).
    unfold reflection at 1.
    destruct ((i * d <=? j) && (j <? i * d + length x))%nat.
    + unfold v. rewrite nth_scaled, <- pow_powerRZ. ring.
    + ring.
Qed.

Lemma mixed_loop (x : list R) (todo done : list nat) (out : list R) :
  Forall (fun i => (i <= 5)%nat) todo -> mixed decay d done x out ->
  exists out',
    for_each (map Z.of_nat todo)
      (add_reflection x decay (Z.of_nat d) (Z.of_nat (length x + 5 * d))) out
      = Ok out' /\
    mixed decay d (rev todo ++ done) x out'.
Proof.
  intros Htodo. revert done out.
  induction Htodo as [|i todo Hi _ IH]; intros done out Hmixed.
  - exists out. split; [reflexivity | exact Hmixed].
  - destruct (mixed_step done x out i Hi Hmixed) as (out1 & Hstep & Hmixed1).
    destruct (IH (i :: done) out1 Hmixed1) as (out' & Hloop & Hmixed').
    exists out'. split.
    + cbn [map for_each]. rewrite Hstep. exact Hloop.
    + cbn [rev]. rewrite <- app_assoc. exact Hmixed'.
Qed.

Lemma mixed_echo_channel (x out : list R) :
  mixed decay d [5; 4; 3; 2; 1]%nat x out -> out = echo_channel x decay d.
Proof.
  intros [Hlen Hnth]. unfold echo_channel.
  set (f := fun j => nth j x 0 + reflections x decay d [1; 2; 3; 4; 5]%nat j).
  apply (nth_ext out (map f (seq 0 (length x + 5 * d))) 0 (f 0%nat)).
  - rewrite length_map, length_seq. exact Hlen.
  - intros j Hj. rewrite Hnth, map_nth, seq_nth by lia.
    unfold f. cbn [Nat.add reflections fold_right]. ring.
Qed.

End Reflections.

Lemma rows_initial (decay : R) (d N : nat) (rows : list (list R)) :
  Forall (fun r => length r = N) rows ->
  exists out,
    slice_update_rows (fun _ y => y) (map (fun _ => repeat 0 (N + 5 * d)) rows)
                      None (Some (Z.of_nat N)) rows = Ok out /\
    Forall2 (mixed decay d []) rows out.
Proof.
  intros Hrows. induction Hrows as [|r rows Hr _ IH].
  - exists []. split; [reflexivity | constructor].
  - destruct IH as (rest & Hrest & Hmixed).
    destruct (mixed_initial decay d r) as (out & Hout & Hm).
    exists (out :: rest). split.
    + cbn [map slice_update_rows]. rewrite <- Hr, Hout. cbn [bind].
      rewrite Hr, Hrest. reflexivity.
    + constructor; assumption.
Qed.

Lemma rows_step (decay : R) (d N : nat) (taps : list nat) (i : nat)
    (rows out : list (list R)) :
  (i <= 5)%nat ->
  Forall (fun r => length r = N) rows ->
  Forall2 (mixed decay d taps) rows out ->
  exists out',
    add_reflection_rows rows (Z.of_nat N) decay (Z.of_nat d) (Z.of_nat (N + 5 * d))
                        (Z.of_nat i) out = Ok out' /\
    Forall2 (mixed decay d (i :: taps)) rows out'.
Proof.
  intros Hi Hrows Hmixed. unfold add_reflection_rows.
  induction Hmixed as [|r o rows out Hm _ IH].
  - exists []. split; [reflexivity | constructor].
  - inversion Hrows as [|? ? Hr Hrows']; subst.
    destruct (IH Hrows') as (rest & Hrest & Hmrest).
    destruct (mixed_step decay d taps r o i Hi Hm) as (o' & Ho & Hm').
    unfold add_reflection in Ho.
    exists (o' :: rest). split.
    + cbn [map slice_update_rows]. rewrite Ho. cbn [bind]. rewrite Hrest. reflexivity.
    + constructor; assumption.
Qed.

Lemma rows_loop (decay : R) (d N : nat) (rows : list (list R))
    (todo done : list nat) (out : list (list R)) :
  Forall (fun i => (i <= 5)%nat) todo ->
  Forall (fun r => length r = N) rows ->
  Forall2 (mixed decay d done) rows out ->
  exists out',
    for_each (map Z.of_nat todo)
      (add_reflection_rows rows (Z.of_nat N) decay (Z.of_nat d) (Z.of_nat (N + 5 * d)))
      out = Ok out' /\
    Forall2 (mixed decay d (rev todo ++ done)) rows out'.
Proof.
  intros Htodo Hrows. revert done out.
  induction Htodo as [|i todo Hi _ IH]; intros done out Hmixed.
  - exists out. split; [reflexivity | exact Hmixed].
  - destruct (rows_step decay d N done i rows out Hi Hrows Hmixed)
      as (out1 & Hstep & Hmixed1).
    destruct (IH (i :: done) out1 Hmixed1) as (out' & Hloop & Hmixed').
    exists out'. split.
    + cbn [map for_each]. rewrite Hstep. exact Hloop.
    + cbn [rev]. rewrite <- app_assoc. exact Hmixed'.
Qed.

Lemma rows_echo_channel (decay : R) (d : nat) (rows out : list (list R)) :
  Forall2 (mixed decay d [5; 4; 3; 2; 1]%nat) rows out ->
  out = map (fun x => echo_channel x decay d) rows.
Proof.
  intros Hmixed. induction Hmixed as [|r o rows out Hm _ IH].
  - reflexivity.
  - cbn [map]. rewrite <- IH, <- (mixed_echo_channel decay d r o Hm). reflexivity.
Qed.

Lemma reflection_range : py_range 1 (num_reflections + 1) = map Z.of_nat [1; 2; 3; 4; 5]%nat.
Proof. reflexivity. Qed.

Lemma rect_num_samples (rows : list (list R)) :
  well_formed (Multi rows) ->
  Forall (fun r => length r = num_samples (Multi rows)) rows.
Proof.
  intros (n & Hrect). destruct rows as [|r0 rows]; [constructor|].
  simpl. inversion Hrect as [|? ? H0 Hrest]; subst.
  constructor; [reflexivity | exact Hrest].
Qed.

Lemma np_zeros_nat (n : nat) : np_zeros (Z.of_nat n) = Ok (repeat 0 n).
Proof.
  unfold np_zeros. destruct (Z.ltb_spec (Z.of_nat n) 0) as [Hneg|_]; [lia|].
  rewrite Nat2Z.id. reflexivity.
Qed.

Lemma length_echo_channel (x : list R) (decay : R) (d : nat) :
  length (echo_channel x decay d) = (length x + 5 * d)%nat.
Proof. unfold echo_channel. rewrite length_map, length_seq. reflexivity. Qed.

(** The array that [reverb] builds before normalising. *)
Lemma reverb_mix_echo (signal : ndarray) (sr : Z) (decay : R) (delay_ms : Z) :
  well_formed signal ->
  (0 < sr)%Z ->
  (0 <= delay_ms)%Z ->
  reverb_mix signal sr decay delay_ms
    = Ok (map_channels
            (fun x => echo_channel x decay (Z.to_nat (sr * delay_ms / 1000))) signal).
Proof.
  intros Hwf Hsr Hdelay.
  destruct (delay_in_samples_eq sr delay_ms Hsr Hdelay) as [Hdel Hnn].
  set (d := Z.to_nat (sr * delay_ms / 1000)).
  assert (Hd : delay_in_samples sr delay_ms = Z.of_nat d)
    by (rewrite Hdel; unfold d; lia).
  unfold reverb_mix. rewrite Hd, reflection_range.
  assert (Htodo : Forall (fun i => (i <= 5)%nat) [1; 2; 3; 4; 5]%nat)
    by (repeat constructor; lia).
  destruct signal as [v|rows].
  - replace (Z.of_nat (length v) + Z.of_nat d * num_reflections)%Z
      with (Z.of_nat (length v + 5 * d)) by (unfold num_reflections; lia).
    rewrite np_zeros_nat. cbn [bind].
    destruct (mixed_initial decay d v) as (out1 & Hout1 & Hm1).
    rewrite Hout1. cbn [bind].
    destruct (mixed_loop decay d v _ [] out1 Htodo Hm1) as (out & Hout & Hm).
    rewrite Hout. cbn [bind map_channels].
    rewrite (mixed_echo_channel decay d v out Hm). reflexivity.
  - pose proof (rect_num_samples rows Hwf) as Hrows.
    set (N := num_samples (Multi rows)) in *.
    replace (Z.of_nat N + Z.of_nat d * num_reflections)%Z
      with (Z.of_nat (N + 5 * d)) by (unfold num_reflections; lia).
    rewrite np_zeros_nat. cbn [bind].
    destruct (rows_initial decay d N rows Hrows) as (out1 & Hout1 & Hm1).
    rewrite Hout1. cbn [bind].
    destruct (rows_loop decay d N rows _ [] out1 Htodo Hrows Hm1) as (out & Hout & Hm).
    rewrite Hout. cbn [bind map_channels].
    rewrite (rows_echo_channel decay d rows out Hm). reflexivity.
Qed.

Lemma echo_mix_shape (signal : ndarray) (decay : R) (d : nat) :
  (0 < num_channels signal)%nat ->
  let mix := map_channels (fun x => echo_channel x decay d) signal in
  num_channels mix = num_channels signal /\
  num_samples mix = (num_samples signal + 5 * d)%nat /\
  ((0 < num_samples signal + 5 * d)%nat -> flat mix <> []).
Proof.
  intros Hch mix. unfold mix. destruct signal as [v|rows]; simpl.
  - split; [reflexivity|]. split; [apply length_echo_channel|].
    intros Hpos Hnil. apply (f_equal (@length R)) in Hnil.
    rewrite length_echo_channel in Hnil. simpl in Hnil. lia.
  - destruct rows as [|r rows]; [simpl in Hch; lia|].
    split; [apply length_map|]. split; [apply length_echo_channel|].
    simpl. intros Hpos Hnil. apply app_eq_nil in Hnil. destruct Hnil as [Hnil _].
    apply (f_equal (@length R)) in Hnil.
    rewrite length_echo_channel in Hnil. simpl in Hnil. lia.
Qed.

(** A channel of one sample, echoed with a delay of one sample and a decay of
    one half. *)
Example echo_channel_one_sample :
  echo_channel [1] (1 / 2) 1 = [1; 1 / 2; 1 / 4; 1 / 8; 1 / 16; 1 / 32].
Proof.
  unfold echo_channel, reflections, reflection. simpl.
  repeat (apply f_equal2; [lra|]). reflexivity.
Qed.

(** C4, as the code has it.  With [delay_samples = int(sr * delay_ms / 1000)]
    (truncated, not rounded), every channel of the array that [reverb] builds
    has [N + 5 * delay_samples] samples: sample [j] is the input sample [j]
    (zero from [N] on) plus, for [i = 1..5], the input delayed by
    [delay_samples * i] and scaled by [decay ^ i].  [reverb] returns that
    array peak-normalised, with the same shape. *)
Theorem reverb_echoes (signal : ndarray) (sr : Z) (decay : R) (delay_ms : Z) :
  well_formed signal ->
  (0 < num_channels signal)%nat ->
  (0 < sr)%Z ->
  (50 <= delay_ms <= 300)%Z ->
  1 / 10 <= decay <= 9 / 10 ->
  let d := Z.to_nat (sr * delay_ms / 1000) in
  let mix := map_channels (fun x => echo_channel x decay d) signal in
  delay_in_samples sr delay_ms = Z.of_nat d /\
  reverb_mix signal sr decay delay_ms = Ok mix /\
  num_channels mix = num_channels signal /\
  num_samples mix = (num_samples signal + 5 * d)%nat /\
  reverb signal sr decay delay_ms = peak_normalize mix default_target_peak /\
  ((0 < num_samples signal + 5 * d)%nat ->
     exists out k, reverb signal sr decay delay_ms = Ok out /\
       out = scale mix k /\
       num_channels out = num_channels signal /\
       num_samples out = (num_samples signal + 5 * d)%nat).
Proof.
  intros Hwf Hch Hsr Hdelay _ d mix.
  destruct (delay_in_samples_eq sr delay_ms Hsr ltac:(lia)) as [Hdel Hnn].
  pose proof (reverb_mix_echo signal sr decay delay_ms Hwf Hsr ltac:(lia)) as Hmix.
  fold d in Hmix. fold mix in Hmix.
  destruct (echo_mix_shape signal decay d Hch) as (Hnc & Hns & Hne).
  fold mix in Hnc, Hns, Hne.
  assert (Hrev : reverb signal sr decay delay_ms = peak_normalize mix default_target_peak)
    by (unfold reverb; rewrite Hmix; reflexivity).
  split; [rewrite Hdel; unfold d; lia|].
  split; [exact Hmix|]. split; [exact Hnc|]. split; [exact Hns|].
  split; [exact Hrev|].
  intros Hpos.
  destruct (peak_normalize_shape mix default_target_peak (Hne Hpos))
    as (out & Hout & Hc & Hn & k & Hk & _).
  exists out, k. split; [rewrite Hrev; exact Hout|]. split; [exact Hk|].
  split; [rewrite Hc; exact Hnc | rewrite Hn; exact Hns].
Qed.

Lemma reverb_echoes_witness :
  reverb_mix (Mono [1; 2]) 1000 (1 / 2) 50
    = Ok (map_channels
            (fun x => echo_channel x (1 / 2) (Z.to_nat (1000 * 50 / 1000)))
            (Mono [1; 2])).
Proof.
  apply (reverb_echoes (Mono [1; 2]) 1000 (1 / 2) 50).
  - exact I.
  - simpl. lia.
  - lia.
  - lia.
  - lra.
Defined.

(** C4 as the spec words it fails: at 22050 Hz a delay of 51 ms is
    1124.55 samples, which the code truncates to 1124 where rounding gives
    1125; one input sample yields 5621 output samples, not 5626. *)
Lemma reverb_length_truncated :
  exists out, reverb (Mono [1]) 22050 (1 / 2) 51 = Ok out /\
    Z.of_nat (num_samples out) = (1 + 5 * 1124)%Z /\
    (1 + 5 * spec_round (IZR (22050 * 51) / 1000) = 1 + 5 * 1125)%Z.
Proof.
  pose proof (reverb_mix_echo (Mono [1]) 22050 (1 / 2) 51 I ltac:(lia) ltac:(lia))
    as Hmix.
  destruct (echo_mix_shape (Mono [1]) (1 / 2) (Z.to_nat (22050 * 51 / 1000)))
    as (_ & Hns & Hne); [simpl; lia|].
  destruct (peak_normalize_shape _ default_target_peak (Hne ltac:(simpl; lia)))
    as (out & Hout & _ & Hn & _).
  rewrite Hns in Hn.
  exists out. split; [unfold reverb; rewrite Hmix; exact Hout|]. split.
  - rewrite Hn. replace (22050 * 51 / 1000)%Z with 1124%Z by reflexivity.
    simpl num_samples. lia.
  - replace (22050 * 51)%Z with 1124550%Z by reflexivity.
    rewrite (spec_round_above 1124) by lra. reflexivity.
Qed.

(** * Further properties of the effects and of the pipeline *)

(** ** The normaliser: bounds, failure, invariance *)

Lemma max_abs_In (l : list R) (x : R) : In x l -> Rabs x <= max_abs l.
Proof.
  induction l as [|y l IH]; simpl; intros Hin.
  - contradiction.
  - destruct Hin as [->|Hin].
    + apply Rmax_l.
    + eapply Rle_trans; [apply IH; exact Hin | apply Rmax_r].
Qed.


Lemma peak_bounds_samples (s : ndarray) (p : R) :
  peak s = Ok p -> Forall (fun x => Rabs x <= p) (flat s).
Proof.
  rewrite peak_eq. destruct (flat s) as [|y l] eqn:Hflat; [discriminate|].
  intros Hp. injection Hp as <-. apply Forall_forall. intros x Hin.
  apply (max_abs_In (y :: l)). exact Hin.
Qed.

Lemma peak_normalize_bounded (s out : ndarray) (t : R) :
  0 <= t -> peak_normalize s t = Ok out ->
  Forall (fun x => Rabs x <= t) (flat out).
Proof.
  intros Ht Hout.
  destruct (peak_normalize_peak s out t Ht Hout) as (p & Hp & Hcases).
  pose proof (peak_bounds_samples out p Hp) as Hall.
  eapply Forall_impl; [|exact Hall]. intros x Hx. simpl in Hx.
  destruct Hcases as [->| ->]; lra.
Qed.

(** X1.  Whatever [peak_normalize] returns for a target that is not
    negative, no sample of it exceeds the target in absolute value. *)
Theorem peak_normalize_no_clipping (signal out : ndarray) (target_peak : R) :
  0 <= target_peak ->
  peak_normalize signal target_peak = Ok out ->
  Forall (fun x => - target_peak <= x <= target_peak) (flat out).
Proof.
  intros Ht Hout.
  pose proof (peak_normalize_bounded signal out target_peak Ht Hout) as Hall.
  eapply Forall_impl; [|exact Hall]. intros x Hx. simpl in Hx.
  apply abs_le_inv. exact Hx.
Qed.

Lemma peak_normalize_no_clipping_witness :
  Forall (fun x => - 1 <= x <= 1)
         (flat (scale (Mono [1 / 4; - (1 / 2); 1 / 10]) (1 / (1 / 2)))).
Proof.
  apply (peak_normalize_no_clipping (Mono [1 / 4; - (1 / 2); 1 / 10]) _ 1).
  - lra.
  - apply peak_normalize_scaled; [eval_peak | lra].
Defined.

(** X2.  In exact arithmetic, every buffer that the pipeline produces,
    whatever the effect and its parameters, has all its samples within
    [-0.95, 0.95].  (The float32 products of the code can pass the bound by
    a rounding error, which samples modelled as reals do not show.) *)
Theorem process_audio_no_clipping `{DSPBackend} (signal : ndarray) (sr : Z)
    (effect : EffectName) (parameters : dict) (out : ndarray) :
  process_audio signal sr effect parameters = Ok out ->
  Forall (fun x => - (95 / 100) <= x <= 95 / 100) (flat out).
Proof.
  unfold process_audio. intros Hout.
  apply bind_Ok_inv in Hout. destruct Hout as (processed & _ & Hnorm).
  pose proof (peak_normalize_bounded processed out default_target_peak
                default_target_peak_nonneg Hnorm) as Hall.
  eapply Forall_impl; [|exact Hall]. intros x Hx. simpl in Hx.
  unfold default_target_peak in Hx. apply abs_le_inv. exact Hx.
Qed.

Lemma process_audio_no_clipping_witness :
  Forall (fun x => - (95 / 100) <= x <= 95 / 100)
         (flat (scale (Mono [1 / 4; 1 / 2]) (default_target_peak / (1 / 2)))).
Proof.
  apply (@process_audio_no_clipping identity_backend (Mono [1 / 2; 1 / 4]) 44100
           REVERSE []).
  unfold process_audio, _apply_effect, reverse_audio. cbn [bind rev app].
  apply peak_normalize_scaled; [eval_peak | lra].
Defined.

Lemma map_array_channel_lengths (f : R -> R) (s : ndarray) (c : nat) :
  option_map (@length R) (channel (map_array f s) c)
    = option_map (@length R) (channel s c).
Proof.
  destruct s as [v|rows]; simpl.
  - destruct c; simpl; [rewrite length_map|]; reflexivity.
  - rewrite nth_error_map. destruct (nth_error rows c); simpl;
      [rewrite length_map|]; reflexivity.
Qed.

(** X3.  [peak_normalize] fails exactly on a buffer without samples, with the
    [ValueError] of [np.max], and with no other exception; on any other
    buffer it returns a buffer with the same channels, each of the same
    length. *)
Theorem peak_normalize_fails_iff_empty (signal : ndarray) (target_peak : R) :
  (peak_normalize signal target_peak = Raise ZeroSizeReduction <-> flat signal = []) /\
  (forall e, peak_normalize signal target_peak = Raise e -> e = ZeroSizeReduction) /\
  (flat signal <> [] ->
     exists out, peak_normalize signal target_peak = Ok out /\
       num_channels out = num_channels signal /\
       forall c, option_map (@length R) (channel out c)
                 = option_map (@length R) (channel signal c)).
Proof.
  assert (Hempty : flat signal = [] ->
                   peak_normalize signal target_peak = Raise ZeroSizeReduction).
  { intros Hnil. unfold peak_normalize. fold (peak signal).
    rewrite peak_eq, Hnil. reflexivity. }
  assert (Hfull : flat signal <> [] ->
     exists out, peak_normalize signal target_peak = Ok out /\
       num_channels out = num_channels signal /\
       forall c, option_map (@length R) (channel out c)
                 = option_map (@length R) (channel signal c)).
  { intros Hne.
    destruct (peak_normalize_shape signal target_peak Hne)
      as (out & Hout & Hch & _ & k & Hk & _).
    exists out. split; [exact Hout|]. split; [exact Hch|].
    intros c. rewrite Hk. apply map_array_channel_lengths. }
  split; [split|split].
  - intros Hraise. destruct (flat signal) as [|x l] eqn:Hflat; [reflexivity|].
    destruct Hfull as (out & Hout & _); [discriminate|].
    rewrite Hout in Hraise. discriminate.
  - exact Hempty.
  - intros e He. destruct (flat signal) as [|x l] eqn:Hflat.
    + rewrite Hempty in He by reflexivity. injection He as <-. reflexivity.
    + destruct Hfull as (out & Hout & _); [discriminate|].
      rewrite Hout in He. discriminate.
  - exact Hfull.
Qed.




(** ** Reverse and the normaliser *)

Lemma max_abs_app (a b : list R) :
  max_abs (a ++ b) = Rmax (max_abs a) (max_abs b).
Proof.
  induction a as [|x a IH]; simpl.
  - symmetry. apply Rmax_right. apply max_abs_nonneg.
  - rewrite IH. apply Rmax_assoc.
Qed.

Lemma max_abs_rev (l : list R) : max_abs (rev l) = max_abs l.
Proof.
  induction l as [|x l IH]; simpl.
  - reflexivity.
  - rewrite max_abs_app, IH. simpl.
    rewrite (Rmax_left (Rabs x) 0) by apply Rabs_pos. apply Rmax_comm.
Qed.

Lemma flat_reverse_audio (s : ndarray) (sr : Z) :
  max_abs (flat (reverse_audio s sr)) = max_abs (flat s) /\
  length (flat (reverse_audio s sr)) = length (flat s).
Proof.
  destruct s as [v|rows]; simpl.
  - split; [apply max_abs_rev | apply length_rev].
  - induction rows as [|r rows [IHm IHl]]; simpl.
    + split; reflexivity.
    + rewrite !max_abs_app, !length_app, max_abs_rev, length_rev, IHm, IHl.
      split; reflexivity.
Qed.

Lemma peak_reverse_audio (s : ndarray) (sr : Z) :
  peak (reverse_audio s sr) = peak s.
Proof.
  rewrite !peak_eq. destruct (flat_reverse_audio s sr) as [Hm Hl].
  destruct (flat (reverse_audio s sr)) as [|x l], (flat s) as [|y l'];
    simpl in Hl; try discriminate; [reflexivity|].
  f_equal. exact Hm.
Qed.

Lemma scale_reverse_audio (s : ndarray) (sr : Z) (k : R) :
  scale (reverse_audio s sr) k = reverse_audio (scale s k) sr.
Proof.
  destruct s as [v|rows]; unfold scale; simpl; f_equal.
  - apply map_rev.
  - rewrite !map_map. apply map_ext. intros r. apply map_rev.
Qed.

(** X5.  Reversing keeps the peak, and normalising commutes with reversing:
    the normalised reverse is the reverse of the normalised buffer, and one
    fails when the other does. *)
Theorem peak_normalize_reverse_audio (signal : ndarray) (sr : Z) (target_peak : R) :
  peak (reverse_audio signal sr) = peak signal /\
  peak_normalize (reverse_audio signal sr) target_peak =
    match peak_normalize signal target_peak with
    | Ok out => Ok (reverse_audio out sr)
    | Raise e => Raise e
    end.
Proof.
  split; [apply peak_reverse_audio|].
  unfold peak_normalize. fold (peak (reverse_audio signal sr)). fold (peak signal).
  rewrite peak_reverse_audio.
  destruct (peak signal) as [p|e]; cbn [bind]; [|reflexivity].
  destruct (Req_dec_T p 0); [reflexivity|].
  rewrite scale_reverse_audio. reflexivity.
Qed.

(** ** Trim: range errors, the default end, ranges shorter than a sample *)

(** X6.  With a non-zero sample rate the range checks of [trim_audio] apply
    in a fixed order, on the float64 values of the times and of the
    duration: a negative start is reported first, then an end beyond the
    duration, then a start that is not before the end.  A successful trim
    therefore had [0 <= start_time < end_time <= duration], on a buffer with
    at least one sample and a positive sample rate. *)
Theorem trim_audio_range_checks (signal : ndarray) (sr : Z) (start_time : R)
    (end_time : option R) :
  sr <> 0%Z ->
  let s := py_float start_time in
  let duration := round_float64 (IZR (Z.of_nat (num_samples signal)) / IZR sr) in
  let e := match end_time with None => duration | Some e => py_float e end in
  (s < 0 ->
     trim_audio signal sr start_time end_time = Raise StartNegative) /\
  (0 <= s -> e > duration ->
     trim_audio signal sr start_time end_time = Raise (EndExceedsDuration e duration)) /\
  (0 <= s -> e <= duration -> s >= e ->
     trim_audio signal sr start_time end_time = Raise StartNotBeforeEnd) /\
  (forall out, trim_audio signal sr start_time end_time = Ok out ->
     0 <= s < e /\ e <= duration /\
     (0 < sr)%Z /\ (0 < num_samples signal)%nat).
Proof.
  intros Hsr s duration e.
  rewrite (trim_audio_checks signal sr start_time end_time Hsr). cbv zeta.
  fold s. fold duration. fold e. repeat split.
  - intros Hneg. destruct (Rlt_dec s 0); [reflexivity | lra].
  - intros H0 Hgt. destruct (Rlt_dec s 0); [lra|].
    destruct (Rgt_dec e duration); [reflexivity | lra].
  - intros H0 Hle Hge. destruct (Rlt_dec s 0); [lra|].
    destruct (Rgt_dec e duration); [lra|].
    destruct (Rge_dec s e); [reflexivity | contradiction].
  - destruct (Rlt_dec s 0); [discriminate | lra].
  - destruct (Rlt_dec s 0); [discriminate|].
    destruct (Rgt_dec e duration); [discriminate|].
    destruct (Rge_dec s e); [discriminate | lra].
  - destruct (Rlt_dec s 0); [discriminate|].
    destruct (Rgt_dec e duration); [discriminate | lra].
  - destruct (Rlt_dec s 0); [discriminate|].
    destruct (Rgt_dec e duration); [discriminate|].
    destruct (Rge_dec s e); [discriminate|].
    assert (Hdur : 0 < duration) by lra.
    destruct (Z.lt_total sr 0) as [Hneg|[Hz|Hpos]]; [|contradiction | exact Hpos].
    exfalso. unfold duration in Hdur.
    assert (HN : 0 <= IZR (Z.of_nat (num_samples signal))) by (apply IZR_le; lia).
    assert (Hs : IZR sr < 0) by (apply IZR_lt; exact Hneg).
    assert (Hinv : / IZR sr < 0) by (apply Rinv_lt_0_compat; exact Hs).
    assert (Hq : IZR (Z.of_nat (num_samples signal)) / IZR sr <= 0)
      by (unfold Rdiv; nra).
    destruct (round_float64_sign (IZR (Z.of_nat (num_samples signal)) / IZR sr))
      as (_ & _ & Hlt).
    destruct (Req_dec (IZR (Z.of_nat (num_samples signal)) / IZR sr) 0) as [Hz|Hnz].
    + rewrite Hz, round_float64_0 in Hdur. lra.
    + pose proof (Hlt ltac:(lra)). lra.
  - destruct (Rlt_dec s 0); [discriminate|].
    destruct (Rgt_dec e duration); [discriminate|].
    destruct (Rge_dec s e); [discriminate|].
    assert (Hdur : 0 < duration) by lra.
    destruct (Nat.eq_dec (num_samples signal) 0) as [HN|HN]; [|lia].
    exfalso. unfold duration in Hdur. rewrite HN, duration_of_empty in Hdur. lra.
Qed.

Lemma trim_audio_range_checks_witness :
  trim_audio (Mono [1; 2; 3; 4]) 2 1 (Some 5)
    = Raise (EndExceedsDuration (py_float 5) (round_float64 (IZR (Z.of_nat 4) / IZR 2))).
Proof.
  pose proof (round_float64_near 1) as H1.
  pose proof (round_float64_near 5) as H5.
  pose proof (round_float64_near (IZR 4 / IZR 2)) as Hd.
  unfold eps64 in H1, H5, Hd.
  apply (trim_audio_range_checks (Mono [1; 2; 3; 4]) 2 1 (Some 5)).
  - discriminate.
  - unfold py_float. lra.
  - unfold py_float. simpl. lra.
Defined.

Lemma py_slice_to_end (r : list R) (lo : Z) :
  (0 <= lo <= Z.of_nat (length r))%Z ->
  py_slice r (Some lo) (Some (Z.of_nat (length r))) = skipn (Z.to_nat lo) r.
Proof.
  intros Hlo.
  destruct (py_slice_inside r lo (Z.of_nat (length r))) as [-> _]; [lia | lia|].
  apply firstn_all2. rewrite length_skipn. lia.
Qed.

Lemma slice_channels_to_end (signal : ndarray) (lo : Z) :
  well_formed signal ->
  (0 <= lo <= Z.of_nat (num_samples signal))%Z ->
  slice_channels signal lo (Z.of_nat (num_samples signal))
    = map_channels (skipn (Z.to_nat lo)) signal.
Proof.
  intros Hwf Hlo. destruct signal as [v|rows].
  - simpl in *. f_equal. apply py_slice_to_end. exact Hlo.
  - pose proof (rect_num_samples rows Hwf) as Hrows.
    unfold slice_channels, map_channels. f_equal.
    apply map_ext_in. intros r Hin.
    rewrite Forall_forall in Hrows. rewrite <- (Hrows r Hin) in *.
    apply py_slice_to_end. exact Hlo.
Qed.

Lemma map_channels_id (signal : ndarray) :
  map_channels (skipn 0) signal = signal.
Proof.
  destruct signal as [v|rows]; simpl; f_equal. apply map_id.
Qed.

(** The sample index of the float64 duration: the number of samples, or one
    less. *)
Lemma default_end_sample (N : nat) (sr : Z) :
  (0 < sr)%Z -> (0 < N)%nat -> (Z.of_nat N < 1125899906842624)%Z ->
  (py_int (float_mul (round_float64 (IZR (Z.of_nat N) / IZR sr)) (IZR sr))
     = Z.of_nat N \/
   py_int (float_mul (round_float64 (IZR (Z.of_nat N) / IZR sr)) (IZR sr))
     = Z.of_nat N - 1)%Z.
Proof.
  intros Hsr HN Hbig.
  destruct (duration_times_rate N sr Hsr Hbig) as [_ Hx].
  set (x := round_float64 (IZR (Z.of_nat N) / IZR sr) * IZR sr) in *.
  assert (H1 : 1 <= IZR (Z.of_nat N)) by (apply IZR_le; lia).
  apply IZR_lt in Hbig.
  pose proof (round_float64_near x ltac:(lra)) as Hnear. unfold eps64 in Hnear.
  unfold float_mul. fold x.
  destruct (Rle_dec (IZR (Z.of_nat N)) (round_float64 x)) as [Hge|Hlt].
  - left. apply py_int_eq; lra.
  - right. apply py_int_eq; [lra|]. rewrite minus_IZR. lra.
Qed.

(** When the buffer holds a whole number of seconds the duration is that
    number, and its sample index is the number of samples. *)
Lemma whole_seconds_end_sample (N : nat) (sr k : Z) :
  (0 < sr)%Z -> (Z.of_nat N < 1125899906842624)%Z ->
  Z.of_nat N = (k * sr)%Z ->
  py_int (float_mul (round_float64 (IZR (Z.of_nat N) / IZR sr)) (IZR sr))
    = Z.of_nat N.
Proof.
  intros Hsr Hbig Hk.
  assert (Hr : 0 < IZR sr) by (apply IZR_lt; exact Hsr).
  assert (Hk0 : (0 <= k <= Z.of_nat N)%Z) by nia.
  replace (IZR (Z.of_nat N) / IZR sr) with (IZR k)
    by (rewrite Hk, mult_IZR; field; lra).
  rewrite round_float64_int by lia.
  unfold float_mul. rewrite <- mult_IZR, <- Hk.
  rewrite round_float64_int by lia.
  apply py_int_eq; [apply IZR_le; lia | lra].
Qed.

Lemma start_sample_of_zero (sr : Z) :
  py_int (float_mul (py_float 0) (IZR sr)) = 0%Z.
Proof.
  unfold py_float, float_mul. rewrite round_float64_0, Rmult_0_l, round_float64_0.
  apply py_int_eq; simpl; lra.
Qed.

(** X7.  Without an end time [trim_audio] cuts every channel from the start
    sample to the sample index of the duration, [int((N / sr) * sr)] in
    float64: that index is the number of samples [N] or [N - 1], so the last
    sample can be lost.  Passing the duration as the end time gives the same
    result.  When the buffer holds a whole number of seconds the
    index is [N]: every channel only loses its first [int(start_time * sr)]
    samples, and trimming from 0 returns the buffer itself. *)
Theorem trim_audio_to_the_end (signal : ndarray) (sr : Z) (start_time : R) :
  well_formed signal ->
  (0 < sr < 9007199254740992)%Z ->
  (Z.of_nat (num_samples signal) < 1125899906842624)%Z ->
  let s := py_float start_time in
  let duration := round_float64 (IZR (Z.of_nat (num_samples signal)) / IZR sr) in
  0 <= s ->
  s < duration ->
  let start_sample := py_int (float_mul s (int_to_float sr)) in
  let end_sample := py_int (float_mul duration (int_to_float sr)) in
  (end_sample = Z.of_nat (num_samples signal) \/
   end_sample = Z.of_nat (num_samples signal) - 1)%Z /\
  (0 <= start_sample <= end_sample)%Z /\
  trim_audio signal sr start_time None
    = Ok (slice_channels signal start_sample end_sample) /\
  trim_audio signal sr start_time (Some duration)
    = trim_audio signal sr start_time None /\
  (forall k : Z, Z.of_nat (num_samples signal) = (k * sr)%Z ->
     end_sample = Z.of_nat (num_samples signal) /\
     trim_audio signal sr start_time None
       = Ok (map_channels (skipn (Z.to_nat start_sample)) signal) /\
     trim_audio signal sr 0 None = Ok signal).
Proof.
  intros Hwf Hsr Hbig s duration H0 Hlt start_sample end_sample.
  set (N := num_samples signal) in *.
  assert (HN : (0 < N)%nat).
  { destruct (Nat.eq_dec N 0) as [Hz|Hnz]; [exfalso | lia].
    unfold duration in Hlt. rewrite Hz, duration_of_empty in Hlt. lra. }
  destruct (sample_bounds N sr s duration ltac:(lia) Hbig H0 ltac:(lra) ltac:(unfold duration; lra))
    as (Hse & HeN & _).
  pose proof (default_end_sample N sr ltac:(lia) HN Hbig) as Hend.
  fold duration in Hend.
  rewrite <- (int_to_float_exact sr) in Hse, HeN, Hend by lia.
  fold start_sample end_sample in Hse, HeN, Hend.
  assert (Htrim : forall t, 0 <= py_float t -> py_float t < duration ->
            trim_audio signal sr t None
              = Ok (slice_channels signal (py_int (float_mul (py_float t) (int_to_float sr)))
                      end_sample)).
  { intros t Ht0 Htd. rewrite trim_audio_checks by lia. cbv zeta.
    fold N. fold duration. fold end_sample.
    destruct (Rlt_dec (py_float t) 0) as [Hneg|_]; [lra|].
    destruct (Rgt_dec duration duration) as [Hgt|_]; [lra|].
    destruct (Rge_dec (py_float t) duration) as [Hge|_]; [lra|].
    reflexivity. }
  split; [exact Hend|]. split; [exact Hse|]. split; [apply Htrim; assumption|].
  split.
  { rewrite !trim_audio_checks by lia. cbv zeta. fold N. fold duration.
    replace (py_float duration) with duration; [reflexivity|].
    symmetry. apply round_float64_idempotent.
    unfold Rdiv. apply Rmult_le_pos; [apply IZR_le; lia|].
    left. apply Rinv_0_lt_compat. apply IZR_lt. lia. }
  intros k Hk.
  assert (HendN : end_sample = Z.of_nat N).
  { unfold end_sample, duration. rewrite int_to_float_exact by lia.
    apply (whole_seconds_end_sample N sr k); [lia | exact Hbig | exact Hk]. }
  split; [exact HendN|]. split.
  - rewrite (Htrim start_time H0 Hlt). fold s. fold start_sample.
    rewrite HendN. f_equal. apply slice_channels_to_end; [exact Hwf | fold N; lia].
  - assert (Hz : py_float 0 = 0) by apply round_float64_0.
    rewrite (Htrim 0) by (rewrite Hz; lra).
    rewrite int_to_float_exact, start_sample_of_zero, HendN by lia. f_equal.
    rewrite slice_channels_to_end; [apply map_channels_id | exact Hwf | fold N; lia].
Qed.

Lemma trim_audio_to_the_end_witness :
  trim_audio (Mono [1; 2; 3; 4]) 2 (3 / 2) None
    = Ok (slice_channels (Mono [1; 2; 3; 4])
            (py_int (float_mul (py_float (3 / 2)) (int_to_float 2)))
            (py_int (float_mul (round_float64 (IZR (Z.of_nat 4) / IZR 2))
                       (int_to_float 2)))).
Proof.
  pose proof (round_float64_near (3 / 2)) as Hs.
  pose proof (round_float64_near (IZR 4 / IZR 2)) as Hd.
  unfold eps64 in Hs, Hd.
  apply (trim_audio_to_the_end (Mono [1; 2; 3; 4]) 2 (3 / 2)).
  - exact I.
  - lia.
  - simpl. lia.
  - unfold py_float. lra.
  - unfold py_float. simpl. lra.
Defined.

Lemma slice_channels_empty (signal : ndarray) (a : Z) :
  flat (slice_channels signal a a) = [].
Proof.
  assert (Hrow : forall r : list R, py_slice r (Some a) (Some a) = [])
    by (intros r; unfold py_slice; rewrite Z.sub_diag; reflexivity).
  destruct signal as [v|rows]; simpl.
  - apply Hrow.
  - induction rows as [|r rows IH]; simpl; [reflexivity|].
    rewrite Hrow, IH. reflexivity.
Qed.

(** X8.  A trim whose start and end, as the code computes them in float64,
    fall into the same sample passes all the checks, returns a buffer
    without samples, and makes the pipeline fail in its normalisation step
    with the [ValueError] of [np.max]. *)
Theorem process_audio_trim_within_one_sample `{DSPBackend} (signal : ndarray)
    (sr : Z) (parameters : dict) (start_time end_time : R) :
  dict_lookup parameters "start_time"%string = Some start_time ->
  dict_lookup parameters "end_time"%string = Some end_time ->
  (0 < sr)%Z ->
  let s := py_float start_time in
  let e := py_float end_time in
  0 <= s ->
  s < e ->
  e <= round_float64 (IZR (Z.of_nat (num_samples signal)) / IZR sr) ->
  py_int (float_mul s (int_to_float sr)) = py_int (float_mul e (int_to_float sr)) ->
  (exists out, _apply_effect signal sr TRIM parameters = Ok out /\ flat out = []) /\
  process_audio signal sr TRIM parameters = Raise ZeroSizeReduction.
Proof.
  intros Hs He Hsr s e H0 Hlt Hend Hsame.
  assert (Happly : _apply_effect signal sr TRIM parameters
            = Ok (slice_channels signal (py_int (float_mul e (int_to_float sr)))
                                        (py_int (float_mul e (int_to_float sr))))).
  { unfold _apply_effect, required_field. rewrite Hs, He. cbn [bind].
    destruct (round_float64_sign start_time) as (_ & _ & Hsneg).
    destruct (round_float64_sign end_time) as (_ & _ & Heneg).
    fold (py_float start_time) in Hsneg. fold (py_float end_time) in Heneg.
    fold s in Hsneg. fold e in Heneg.
    destruct (Rlt_dec start_time 0) as [Hneg|_]; [pose proof (Hsneg Hneg); lra|].
    destruct (Rle_dec end_time 0) as [Hle|_].
    { exfalso. destruct (Req_dec end_time 0) as [Hz|Hnz].
      - unfold e, py_float in Hlt. rewrite Hz, round_float64_0 in Hlt. lra.
      - pose proof (Heneg ltac:(lra)). lra. }
    rewrite trim_audio_checks by lia. cbv zeta. fold s. fold e.
    destruct (Rlt_dec s 0) as [Hneg|_]; [lra|].
    destruct (Rgt_dec e _) as [Hgt|_]; [lra|].
    destruct (Rge_dec s e) as [Hge|_]; [lra|].
    rewrite Hsame. reflexivity. }
  split.
  - eexists. split; [exact Happly | apply slice_channels_empty].
  - unfold process_audio. rewrite Happly. cbn [bind].
    unfold peak_normalize.
    fold (peak (slice_channels signal (py_int (float_mul e (int_to_float sr)))
                                      (py_int (float_mul e (int_to_float sr))))).
    rewrite peak_eq, slice_channels_empty. reflexivity.
Qed.

Lemma process_audio_trim_within_one_sample_witness :
  @process_audio identity_backend (Mono [1; 2; 3; 4]) 2 TRIM
     [("start_time"%string, 1 / 10); ("end_time"%string, 2 / 10)]
    = Raise ZeroSizeReduction.
Proof.
  pose proof (round_float64_between (1 / 10) (1 / 10) (1 / 10)
                ltac:(lra) ltac:(lra)) as Hs.
  pose proof (round_float64_between (2 / 10) (2 / 10) (2 / 10)
                ltac:(lra) ltac:(lra)) as He.
  pose proof (round_float64_near (IZR 4 / IZR 2)) as Hd.
  unfold eps64 in Hs, He, Hd.
  pose proof (round_float64_between (round_float64 (1 / 10) * IZR 2)
                (1 / 10) (3 / 10) ltac:(lra) ltac:(lra)) as Hps.
  pose proof (round_float64_between (round_float64 (2 / 10) * IZR 2)
                (3 / 10) (5 / 10) ltac:(lra) ltac:(lra)) as Hpe.
  unfold eps64 in Hps, Hpe.
  apply (@process_audio_trim_within_one_sample identity_backend (Mono [1; 2; 3; 4]) 2
           [("start_time"%string, 1 / 10); ("end_time"%string, 2 / 10)]
           (1 / 10) (2 / 10)).
  - reflexivity.
  - reflexivity.
  - lia.
  - unfold py_float. lra.
  - unfold py_float. lra.
  - unfold py_float. simpl. lra.
  - rewrite int_to_float_exact by lia. unfold py_float, float_mul.
    rewrite (py_int_eq 0 (round_float64 (round_float64 (1 / 10) * IZR 2))) by lra.
    rewrite (py_int_eq 0 (round_float64 (round_float64 (2 / 10) * IZR 2))) by lra.
    reflexivity.
Defined.

(** X9.  Through the dispatcher a trim is never rejected by the first range
    check of [trim_audio]: a negative start is already refused as an invalid
    parameter, as is an end that is not positive or a missing time. *)
Theorem apply_effect_trim_start_checked `{DSPBackend} (signal : ndarray) (sr : Z)
    (parameters : dict) :
  _apply_effect signal sr TRIM parameters <> Raise StartNegative /\
  (forall v, dict_lookup parameters "start_time"%string = Some v -> v < 0 ->
     exists field, _apply_effect signal sr TRIM parameters
                   = Raise (ValidationError field)) /\
  (dict_lookup parameters "end_time"%string = None ->
     exists field, _apply_effect signal sr TRIM parameters
                   = Raise (ValidationError field)).
Proof.
  unfold _apply_effect, required_field. repeat split.
  - destruct (dict_lookup parameters "start_time"%string) as [s|]; [|discriminate].
    destruct (dict_lookup parameters "end_time"%string) as [e|]; [|discriminate].
    cbn [bind].
    destruct (Rlt_dec s 0) as [Hneg|Hpos]; [discriminate|].
    destruct (Rle_dec e 0) as [Hle|Hgt]; [discriminate|].
    destruct (Z.eq_dec sr 0) as [->|Hsr].
    + rewrite trim_audio_empty_zero_rate. discriminate.
    + rewrite trim_audio_checks by exact Hsr. cbv zeta.
      destruct (Rlt_dec (py_float s) 0) as [Hlt|_].
      * exfalso. destruct (round_float64_sign s) as (Hs0 & _).
        unfold py_float in Hlt. pose proof (Hs0 ltac:(lra)). lra.
      * destruct (Rgt_dec _ _); [discriminate|].
        destruct (Rge_dec _ _); discriminate.
  - intros v Hv Hneg. rewrite Hv.
    destruct (dict_lookup parameters "end_time"%string) as [e|]; cbn [bind].
    + destruct (Rlt_dec v 0); [eexists; reflexivity | contradiction].
    + eexists. reflexivity.
  - intros Hnone. rewrite Hnone.
    destruct (dict_lookup parameters "start_time"%string) as [s|]; cbn [bind];
      eexists; reflexivity.
Qed.

(** ** The dispatcher: parameters within bounds, one normalisation enough *)

Lemma bounded_field_cases (params : dict) (name : String.string) (default lo hi : R) :
  lo <= default <= hi ->
  bounded_field params name default lo hi = Raise (ValidationError name) \/
  exists v, bounded_field params name default lo hi = Ok v /\ lo <= v <= hi.
Proof.
  intros Hd. unfold bounded_field.
  destruct (dict_lookup params name) as [v|].
  - destruct (Rlt_dec v lo); [left; reflexivity|].
    destruct (Rgt_dec v hi); [left; reflexivity|].
    right. exists v. split; [reflexivity | lra].
  - right. exists default. split; [reflexivity | exact Hd].
Qed.

Lemma bounded_int_field_cases (params : dict) (name : String.string)
    (default lo hi : Z) :
  (lo <= default <= hi)%Z ->
  bounded_int_field params name default lo hi = Raise (ValidationError name) \/
  exists v, bounded_int_field params name default lo hi = Ok v /\ (lo <= v <= hi)%Z.
Proof.
  intros Hd. unfold bounded_int_field.
  destruct (bounded_field_cases params name (IZR default) (IZR lo) (IZR hi))
    as [->|(v & -> & Hv)].
  - split; apply IZR_le; lia.
  - left. reflexivity.
  - cbn [bind]. destruct (Req_dec_T (IZR (Zfloor v)) v) as [Hint|_].
    + right. exists (Zfloor v). split; [reflexivity|].
      rewrite <- Hint in Hv. split; apply le_IZR; lra.
    + left. reflexivity.
Qed.

Ltac validated :=
  match goal with
  | |- context [bounded_int_field ?p ?n ?d ?lo ?hi] =>
      let v := fresh "v" in
      let Hv := fresh "Hv" in
      let Hb := fresh "Hb" in
      destruct (bounded_int_field_cases p n d lo hi ltac:(lia))
        as [Hv|(v & Hv & Hb)];
      rewrite Hv; cbn [bind]; [left; eexists; reflexivity|]
  | |- context [bounded_field ?p ?n ?d ?lo ?hi] =>
      let v := fresh "v" in
      let Hv := fresh "Hv" in
      let Hb := fresh "Hb" in
      destruct (bounded_field_cases p n d lo hi ltac:(lra))
        as [Hv|(v & Hv & Hb)];
      rewrite Hv; cbn [bind]; [left; eexists; reflexivity|]
  end.

(** X10.  The dispatcher either rejects the request, naming a parameter, or
    calls the effect function with every parameter inside the bounds of its
    schema, defaults included; no effect function ever runs on an
    out-of-bound value. *)
Theorem apply_effect_within_bounds `{DSPBackend} (signal : ndarray) (sr : Z)
    (effect : EffectName) (params : dict) :
  (exists field, _apply_effect signal sr effect params = Raise (ValidationError field)) \/
  match effect with
  | REVERSE => _apply_effect signal sr effect params = Ok (reverse_audio signal sr)
  | PITCH_SHIFT =>
      exists semitones, -12 <= semitones <= 12 /\
        _apply_effect signal sr effect params = pitch_shift signal sr semitones
  | REVERB =>
      exists decay delay_ms,
        1 / 10 <= decay <= 9 / 10 /\ (50 <= delay_ms <= 300)%Z /\
        _apply_effect signal sr effect params = reverb signal sr decay delay_ms
  | STEREO_WIDEN =>
      exists delay_ms gain_diff_db,
        (5 <= delay_ms <= 20)%Z /\ 0 <= gain_diff_db <= 6 /\
        _apply_effect signal sr effect params
          = stereo_widen signal sr delay_ms gain_diff_db
  | TRIM =>
      exists start_time end_time, 0 <= start_time /\ 0 < end_time /\
        _apply_effect signal sr effect params
          = trim_audio signal sr start_time (Some end_time)
  | EIGHT_D_AUDIO =>
      exists pan_speed_hz intensity crossfeed,
        5 / 100 <= pan_speed_hz <= 1 /\ 1 / 10 <= intensity <= 1 /\
        0 <= crossfeed <= 6 / 10 /\
        _apply_effect signal sr effect params
          = eight_d_audio signal sr pan_speed_hz intensity crossfeed
  | EQUALIZER =>
      exists band_gains,
        Forall (fun band => -12 <= dict_get band_gains (fst band) 0 <= 12) BANDS /\
        _apply_effect signal sr effect params = equalizer signal sr (Some band_gains)
  end.
Proof.
  destruct effect; unfold _apply_effect.
  - right. reflexivity.
  - validated. right. exists v. split; [exact Hb | reflexivity].
  - validated. validated. right. exists v, v0. repeat split; try tauto; lia.
  - validated. validated. right. exists v, v0. repeat split; try tauto; lia.
  - unfold required_field.
    destruct (dict_lookup params "start_time"%string) as [s|];
      [|left; eexists; reflexivity].
    destruct (dict_lookup params "end_time"%string) as [e|];
      [|left; eexists; reflexivity].
    cbn [bind].
    destruct (Rlt_dec s 0); [left; eexists; reflexivity|].
    destruct (Rle_dec e 0); [left; eexists; reflexivity|].
    right. exists s, e. repeat split; lra.
  - validated. validated. validated. right. exists v, v0, v1.
    repeat split; try tauto.
  - do 7 validated. right. eexists. split; [|reflexivity].
    unfold BANDS.
    repeat (apply Forall_cons; [unfold dict_get; simpl; lra|]). apply Forall_nil.
Qed.

Lemma peak_normalize_again (s r : ndarray) (t : R) :
  0 <= t -> peak_normalize s t = Ok r -> peak_normalize r t = Ok r.
Proof.
  intros Ht. unfold peak_normalize at 1. fold (peak s).
  destruct (peak s) as [p|e] eqn:Hp; simpl; [|discriminate].
  destruct (Req_dec_T p 0) as [H0|Hne]; intros Hr; injection Hr as <-.
  - apply peak_normalize_silent. rewrite Hp, H0. reflexivity.
  - pose proof (peak_after_scaling s t p Ht Hp Hne) as Hpeak.
    destruct (Req_dec_T t 0) as [Ht0|Htne].
    + apply peak_normalize_silent. rewrite Hpeak, Ht0. reflexivity.
    + rewrite (peak_normalize_scaled _ t t Hpeak Htne).
      rewrite scale_scale. do 2 f_equal. field. split; assumption.
Qed.

Lemma normalize_twice (c : result ndarray) :
  (x <- (m <- c ;; peak_normalize m default_target_peak) ;;
   peak_normalize x default_target_peak)
    = (m <- c ;; peak_normalize m default_target_peak).
Proof.
  destruct c as [m|e]; cbn [bind]; [|reflexivity].
  destruct (peak_normalize m default_target_peak) as [r|e] eqn:Hr; cbn [bind].
  - apply (peak_normalize_again m r _ default_target_peak_nonneg Hr).
  - reflexivity.
Qed.

(** X11.  In exact arithmetic, for the effects that normalise their own
    result (pitch shift, reverb, stereo widening, 8D audio) the
    normalisation step of the pipeline changes nothing: the pipeline
    returns, or raises, exactly what the dispatcher did.  (In float32 the
    second pass can move samples by a rounding error.) *)
Theorem process_audio_second_pass_idle `{DSPBackend} (signal : ndarray) (sr : Z)
    (effect : EffectName) (parameters : dict) :
  effect = PITCH_SHIFT \/ effect = REVERB \/ effect = STEREO_WIDEN \/
  effect = EIGHT_D_AUDIO ->
  process_audio signal sr effect parameters
    = _apply_effect signal sr effect parameters.
Proof.
  intros Heffect. unfold process_audio.
  destruct Heffect as [->|[->|[->| ->]]]; unfold _apply_effect;
    repeat match goal with
           | |- context [bounded_int_field ?p ?n ?d ?lo ?hi] =>
               destruct (bounded_int_field p n d lo hi); cbn [bind]; [|reflexivity]
           | |- context [bounded_field ?p ?n ?d ?lo ?hi] =>
               destruct (bounded_field p n d lo hi); cbn [bind]; [|reflexivity]
           end.
  - unfold pitch_shift.
    match goal with
    | |- context [peak_normalize ?s default_target_peak] =>
        apply (normalize_twice (Ok s))
    end.
  - unfold reverb. apply normalize_twice.
  - unfold stereo_widen. apply normalize_twice.
  - unfold eight_d_audio. apply normalize_twice.
Qed.

Lemma process_audio_second_pass_idle_witness :
  @process_audio identity_backend (Mono [1; 2]) 1000 STEREO_WIDEN []
    = @_apply_effect identity_backend (Mono [1; 2]) 1000 STEREO_WIDEN [].
Proof.
  apply (@process_audio_second_pass_idle identity_backend (Mono [1; 2]) 1000
           STEREO_WIDEN []).
  right. right. left. reflexivity.
Defined.

(** ** Stereo widening: mid and side *)

Lemma nth_padded (l : list R) (d j : nat) :
  nth j (l ++ repeat 0 d) 0 = nth j l 0.
Proof.
  destruct (Nat.lt_ge_cases j (length l)) as [Hlt|Hge].
  - apply app_nth1. exact Hlt.
  - rewrite app_nth2 by exact Hge. rewrite nth_zeros.
    symmetry. apply nth_overflow. exact Hge.
Qed.

Lemma nth_delayed (l : list R) (d j : nat) :
  nth j (repeat 0 d ++ l) 0 = if (j <? d)%nat then 0 else nth (j - d) l 0.
Proof.
  destruct (Nat.ltb_spec j d) as [Hlt|Hge].
  - rewrite app_nth1 by (rewrite repeat_length; exact Hlt). apply nth_zeros.
  - rewrite app_nth2 by (rewrite repeat_length; exact Hge).
    rewrite repeat_length. reflexivity.
Qed.

Lemma stereo_widen_mix_rows (signal : ndarray) (sr delay_ms : Z) (gain_diff_db : R)
    (left right : list R) (rest : list (list R)) :
  ensure_stereo signal = left :: right :: rest ->
  (0 < sr)%Z -> (0 <= delay_ms)%Z ->
  let zeros := repeat 0 (Z.to_nat (sr * delay_ms / 1000)) in
  let left_padded := left ++ zeros in
  let right_delayed := map (fun x => x * gain_factor gain_diff_db) (zeros ++ right) in
  stereo_widen_mix signal sr delay_ms gain_diff_db =
    Ok (Multi
          [map2 (fun l r => (l + r) / 2 + (l - r) / 2 * (13 / 10))
                left_padded right_delayed;
           map2 (fun l r => (l + r) / 2 - (l - r) / 2 * (13 / 10))
                left_padded right_delayed]).
Proof.
  intros Hrows Hsr Hd zeros left_padded right_delayed.
  destruct (delay_in_samples_eq sr delay_ms Hsr Hd) as [Hdel Hnn].
  unfold stereo_widen_mix. rewrite Hrows. cbn [row nth_error bind].
  rewrite Hdel. unfold np_zeros.
  destruct (Z.ltb_spec (sr * delay_ms / 1000) 0) as [Hneg|_]; [lia|].
  cbn [bind]. fold zeros. fold left_padded. fold right_delayed.
  rewrite !map_map, !map_map2, !map2_map2. reflexivity.
Qed.

(** X12.  Before the final normalisation, [stereo_widen] turns the first two
    channels [left] and [right] of its input (of [N] samples each) into two
    channels of [N + delay_samples] samples whose sum, sample by sample, is
    the sum of the padded left channel and the delayed, attenuated right
    channel, and whose difference is 1.3 times their difference; further
    input channels are ignored. *)
Theorem stereo_widen_mid_side (signal : ndarray) (sr delay_ms : Z)
    (gain_diff_db : R) (left right : list R) (rest : list (list R)) :
  ensure_stereo signal = left :: right :: rest ->
  length left = length right ->
  (0 < sr)%Z ->
  (0 <= delay_ms)%Z ->
  let d := Z.to_nat (sr * delay_ms / 1000) in
  let L := fun j => nth j left 0 in
  let Rd := fun j => (if (j <? d)%nat then 0 else nth (j - d) right 0)
                     * gain_factor gain_diff_db in
  exists new_left new_right,
    stereo_widen_mix signal sr delay_ms gain_diff_db = Ok (Multi [new_left; new_right]) /\
    length new_left = (length left + d)%nat /\
    length new_right = (length left + d)%nat /\
    forall j, (j < length left + d)%nat ->
      nth j new_left 0 + nth j new_right 0 = L j + Rd j /\
      nth j new_left 0 - nth j new_right 0 = 13 / 10 * (L j - Rd j).
Proof.
  intros Hrows Hlen Hsr Hdelay d L Rd.
  pose proof (stereo_widen_mix_rows signal sr delay_ms gain_diff_db left right rest
                Hrows Hsr Hdelay) as Hmix.
  cbv zeta in Hmix. fold d in Hmix.
  set (left_padded := left ++ repeat 0 d) in *.
  set (right_delayed := map (fun x => x * gain_factor gain_diff_db)
                            (repeat 0 d ++ right)) in *.
  assert (HL : length left_padded = (length left + d)%nat)
    by (unfold left_padded; rewrite length_app, repeat_length; reflexivity).
  assert (HR : length right_delayed = (length left + d)%nat)
    by (unfold right_delayed; rewrite length_map, length_app, repeat_length; lia).
  eexists. eexists. split; [exact Hmix|].
  split; [rewrite length_map2; lia|]. split; [rewrite length_map2; lia|].
  intros j Hj. rewrite !nth_map2 by lia.
  assert (HLj : nth j left_padded 0 = L j) by (unfold left_padded; apply nth_padded).
  assert (HRj : nth j right_delayed 0 = Rd j).
  { unfold right_delayed, Rd. rewrite nth_scaled, nth_delayed. reflexivity. }
  rewrite HLj, HRj. split; field.
Qed.

Lemma stereo_widen_mid_side_witness :
  exists new_left new_right,
    stereo_widen_mix (Multi [[1; 2]; [3; 4]; [5; 6]]) 1000 5 3
      = Ok (Multi [new_left; new_right]) /\
    length new_left = (2 + Z.to_nat (1000 * 5 / 1000))%nat.
Proof.
  destruct (stereo_widen_mid_side (Multi [[1; 2]; [3; 4]; [5; 6]]) 1000 5 3
              [1; 2] [3; 4] [[5; 6]])
    as (new_left & new_right & Hmix & Hl & _).
  - reflexivity.
  - reflexivity.
  - lia.
  - lia.
  - exists new_left, new_right. split; assumption.
Defined.

(** X13.  A two-axis array with fewer than two rows is refused by both
    stereo effects with an [IndexError]: they read rows 0 and 1. *)
Theorem stereo_effects_need_two_rows (rows : list (list R)) (sr delay_ms : Z)
    (gain_diff_db pan_speed_hz intensity crossfeed : R) :
  (length rows < 2)%nat ->
  stereo_widen (Multi rows) sr delay_ms gain_diff_db = Raise IndexError /\
  eight_d_audio (Multi rows) sr pan_speed_hz intensity crossfeed = Raise IndexError.
Proof.
  intros Hlen.
  destruct rows as [|r0 [|r1 rest]]; simpl in Hlen; try lia; split; reflexivity.
Qed.

Lemma stereo_effects_need_two_rows_witness :
  stereo_widen (Multi [[1; 2]]) 44100 10 (3 / 2) = Raise IndexError /\
  eight_d_audio (Multi [[1; 2]]) 44100 (15 / 100) (8 / 10) (3 / 10) = Raise IndexError.
Proof.
  apply (stereo_effects_need_two_rows [[1; 2]]). simpl. lia.
Defined.

(** ** 8D audio: equal power *)

Lemma nth_map_seq (G : nat -> R) (N n : nat) :
  (n < N)%nat -> nth n (map G (seq 0 N)) 0 = G n.
Proof.
  intros Hn.
  rewrite (nth_indep _ 0 (G 0%nat)) by (rewrite length_map, length_seq; exact Hn).
  rewrite map_nth, seq_nth by exact Hn. reflexivity.
Qed.

Lemma pan_curve_range (intensity theta : R) :
  0 <= intensity <= 1 ->
  0 <= 1 / 2 + intensity * (1 / 2 + 1 / 2 * sin theta - 1 / 2) <= 1.
Proof.
  intros Hi. pose proof (SIN_bound theta) as [Hlo Hhi]. split; nra.
Qed.

(** X14.  With an intensity between 0 and 1 the panning of [eight_d_audio]
    keeps the power of the centred signal: at every sample the squares of
    the two panned channels add up to the square of the mono mix
    [(signal[0] + signal[1]) / 2]. *)
Theorem eight_d_pan_equal_power (signal : ndarray) (sr : Z)
    (pan_speed_hz intensity : R) (s0 s1 : list R) (rest : list (list R)) :
  ensure_stereo signal = s0 :: s1 :: rest ->
  length s0 = length s1 ->
  0 <= intensity <= 1 ->
  exists left_pan right_pan,
    eight_d_pan (ensure_stereo signal) sr pan_speed_hz intensity
      = Ok (left_pan, right_pan) /\
    length left_pan = length s0 /\
    length right_pan = length s0 /\
    forall n, (n < length s0)%nat ->
      nth n left_pan 0 * nth n left_pan 0 + nth n right_pan 0 * nth n right_pan 0
        = ((nth n s0 0 + nth n s1 0) / 2) * ((nth n s0 0 + nth n s1 0) / 2).
Proof.
  intros Hrows Hlen Hi. unfold eight_d_pan. rewrite Hrows.
  cbn [row nth_error bind hd].
  eexists. eexists. split; [reflexivity|].
  rewrite !map_map.
  split; [repeat (rewrite length_map2 || rewrite length_map || rewrite length_seq); lia|].
  split; [repeat (rewrite length_map2 || rewrite length_map || rewrite length_seq); lia|].
  intros n Hn.
  assert (Hmono : nth n (map (fun x => x / 2) (map2 Rplus s0 s1)) 0
                  = (nth n s0 0 + nth n s1 0) / 2).
  { rewrite map_map2, nth_map2 by lia. reflexivity. }
  rewrite !nth_map2
    by (repeat (rewrite length_map2 || rewrite length_map || rewrite length_seq); lia).
  rewrite Hmono, !nth_map_seq by exact Hn.
  set (c := 1 / 2 + intensity *
              (1 / 2 + 1 / 2 * sin (2 * PI * pan_speed_hz * (INR n / IZR sr)) - 1 / 2)).
  assert (Hc : 0 <= c <= 1) by (apply pan_curve_range; exact Hi).
  set (m := (nth n s0 0 + nth n s1 0) / 2).
  replace (m * sqrt (1 - c) * (m * sqrt (1 - c)) + m * sqrt c * (m * sqrt c))
    with (m * m * (sqrt (1 - c) * sqrt (1 - c) + sqrt c * sqrt c)) by ring.
  rewrite !sqrt_sqrt by lra. ring.
Qed.

Lemma eight_d_pan_equal_power_witness :
  exists left_pan right_pan,
    eight_d_pan (ensure_stereo (Mono [1; 2])) 44100 (15 / 100) (8 / 10)
      = Ok (left_pan, right_pan) /\
    length left_pan = 2%nat.
Proof.
  destruct (eight_d_pan_equal_power (Mono [1; 2]) 44100 (15 / 100) (8 / 10)
              [1; 2] [1; 2] [])
    as (left_pan & right_pan & Hpan & Hl & _).
  - reflexivity.
  - reflexivity.
  - lra.
  - exists left_pan, right_pan. split; assumption.
Defined.

(** ** Equalizer: active bands and the sections they get *)

Lemma add_band_cases (band_gains_db : dict) (sr : Z) (acc : list (list R))
    (band : String.string * R) :
  (band_inactive band_gains_db sr band /\ add_band band_gains_db sr acc band = acc) \/
  (~ band_inactive band_gains_db sr band /\
   exists sos, add_band band_gains_db sr acc band = acc ++ [sos]).
Proof.
  destruct band as [band_name centre_freq]. unfold band_inactive, add_band. simpl.
  destruct (Rlt_dec _ _) as [Hflat|Hgain].
  - left. split; [left; exact Hflat | reflexivity].
  - destruct (Rge_dec _ _) as [Hnyq|Hbelow].
    + left. split; [right; exact Hnyq | reflexivity].
    + right. split; [intros [H|H]; contradiction | eexists; reflexivity].
Qed.

Lemma fold_bands_length (band_gains_db : dict) (sr : Z) (bands : dict)
    (acc : list (list R)) :
  (length acc <= length (fold_left (add_band band_gains_db sr) bands acc)
   <= length acc + length bands)%nat.
Proof.
  revert acc. induction bands as [|band bands IH]; intros acc; simpl.
  - lia.
  - specialize (IH (add_band band_gains_db sr acc band)).
    destruct (add_band_cases band_gains_db sr acc band) as [[_ Heq]|[_ (sos & Heq)]];
      rewrite Heq in *; [|rewrite length_app in IH; simpl in IH]; lia.
Qed.

Lemma fold_bands_empty (band_gains_db : dict) (sr : Z) (bands : dict)
    (acc : list (list R)) :
  fold_left (add_band band_gains_db sr) bands acc = [] ->
  acc = [] /\ Forall (band_inactive band_gains_db sr) bands.
Proof.
  revert acc. induction bands as [|band bands IH]; intros acc; simpl.
  - intros ->. split; [reflexivity | constructor].
  - intros Hnil. destruct (IH _ Hnil) as [Hacc Hrest].
    destruct (add_band_cases band_gains_db sr acc band)
      as [[Hin Heq]|[_ (sos & Heq)]]; rewrite Heq in Hacc.
    + split; [exact Hacc | constructor; assumption].
    + destruct acc; discriminate.
Qed.

(** X15.  The equalizer builds no section exactly when every band is
    inactive, and never more than seven; as soon as one band is active the
    result is the cascade of the sections applied by [sosfilt] to every
    channel, peak-normalised. *)
Theorem equalizer_sections `{DSPBackend} (signal : ndarray) (sr : Z)
    (band_gains_db : dict) :
  (build_sos_sections band_gains_db sr = [] <->
   Forall (band_inactive band_gains_db sr) BANDS) /\
  (length (build_sos_sections band_gains_db sr) <= 7)%nat /\
  (build_sos_sections band_gains_db sr <> [] ->
   equalizer signal sr (Some band_gains_db)
     = peak_normalize
         (map_channels (sosfilt (build_sos_sections band_gains_db sr)) signal)
         default_target_peak).
Proof.
  split; [split|split].
  - intros Hnil. apply (fold_bands_empty band_gains_db sr BANDS []). exact Hnil.
  - intros Hall. apply fold_bands_inactive. exact Hall.
  - pose proof (fold_bands_length band_gains_db sr BANDS []) as Hlen.
    unfold build_sos_sections. simpl in Hlen |- *. lia.
  - intros Hne. unfold equalizer.
    destruct (build_sos_sections band_gains_db sr) as [|sos rest];
      [contradiction Hne; reflexivity|].
    destruct signal; reflexivity.
Qed.

(** ** The peaking section *)

Lemma peaking_alpha_pos (freq q : R) (fs : Z) :
  0 < freq -> freq < IZR fs / 2 -> 0 < q ->
  0 < sin (2 * PI * freq / IZR fs) / (2 * q).
Proof.
  intros Hf Hny Hq.
  assert (Hfs : 0 < IZR fs) by lra.
  pose proof PI_RGT_0 as Hpi.
  assert (Hinv : 0 < / IZR fs) by (apply Rinv_0_lt_compat; exact Hfs).
  assert (Hw0 : 0 < 2 * PI * freq / IZR fs).
  { unfold Rdiv. apply Rmult_lt_0_compat; [nra | exact Hinv]. }
  assert (Hw1 : 2 * PI * freq / IZR fs < PI).
  { replace PI with (2 * PI * (IZR fs / 2) / IZR fs) at 2 by (field; lra).
    unfold Rdiv at 1 3. apply Rmult_lt_compat_r; [exact Hinv | nra]. }
  apply Rdiv_lt_0_compat; [apply sin_gt_0; assumption | lra].
Qed.

(** X16.  For a centre frequency below Nyquist, the peaking section
    designed for a cut of [g] dB is the inverse of the one designed for a
    boost of [g] dB: its numerator is the other's denominator and conversely,
    up to the normalisation of the leading denominator coefficient to 1.  At
    0 dB the section is the identity: numerator and denominator coincide. *)
Theorem peaking_eq_cut_inverts_boost (freq gain_db q : R) (fs : Z) :
  0 < freq -> freq < IZR fs / 2 -> 0 < q ->
  (exists b0 b1 b2 a1 a2, b0 <> 0 /\
     _peaking_eq_sos freq gain_db q fs = [b0; b1; b2; 1; a1; a2] /\
     _peaking_eq_sos freq (- gain_db) q fs
       = [1 / b0; a1 / b0; a2 / b0; 1; b1 / b0; b2 / b0]) /\
  (exists c1 c2, _peaking_eq_sos freq 0 q fs = [1; c1; c2; 1; c1; c2]).
Proof.
  intros Hf Hny Hq.
  pose proof (peaking_alpha_pos freq q fs Hf Hny Hq) as Halpha.
  unfold _peaking_eq_sos.
  set (alpha := sin (2 * PI * freq / IZR fs) / (2 * q)) in *.
  set (c := cos (2 * PI * freq / IZR fs)).
  split.
  - replace (- gain_db / 40) with (- (gain_db / 40)) by field.
    rewrite Rpower_Ropp.
    assert (HA : 0 < Rpower 10 (gain_db / 40)) by (unfold Rpower; apply exp_pos).
    set (A := Rpower 10 (gain_db / 40)) in *.
    assert (HiA : 0 < / A) by (apply Rinv_0_lt_compat; exact HA).
    assert (Hb0 : 0 < 1 + alpha * A) by nra.
    assert (Ha0 : 0 < 1 + alpha / A) by (unfold Rdiv; nra).
    assert (Hb0' : 0 < 1 + alpha * / A) by nra.
    assert (Ha0' : 0 < 1 + alpha / / A)
      by (unfold Rdiv; rewrite Rinv_inv; nra).
    eexists. eexists. eexists. eexists. eexists.
    split; [|split; [reflexivity|]].
    + apply Rgt_not_eq. apply Rdiv_lt_0_compat; [exact Hb0 | exact Ha0].
    + assert (HAne : A <> 0) by (apply Rgt_not_eq; exact HA).
      assert (Hsum : A + alpha <> 0) by (apply Rgt_not_eq; lra).
      assert (Hprod : 1 + alpha * A <> 0) by (apply Rgt_not_eq; exact Hb0).
      repeat (apply f_equal2;
              [solve [reflexivity | field; repeat split; assumption]|]).
      reflexivity.
  - replace (0 / 40) with 0 by field.
    rewrite Rpower_O by lra.
    assert (Ha0 : 1 + alpha / 1 <> 0) by (apply Rgt_not_eq; lra).
    exists (-2 * c / (1 + alpha / 1)), ((1 - alpha / 1) / (1 + alpha / 1)).
    repeat (apply f_equal2; [solve [reflexivity | field; lra]|]). reflexivity.
Qed.

Lemma peaking_eq_cut_inverts_boost_witness :
  exists c1 c2, _peaking_eq_sos 1000 0 (14 / 10) 44100 = [1; c1; c2; 1; c1; c2].
Proof.
  apply (peaking_eq_cut_inverts_boost 1000 6 (14 / 10) 44100); lra.
Defined.

(** ** Reverb: where the echoes land *)

Lemma reflection_outside (x : list R) (decay : R) (d i j : nat) :
  (j < i * d \/ i * d + length x <= j)%nat -> reflection x decay d i j = 0.
Proof.
  intros Hout. unfold reflection.
  destruct (Nat.leb_spec (i * d) j) as [Hle|Hlt]; cbn [andb]; [|reflexivity].
  destruct (Nat.ltb_spec j (i * d + length x)) as [Hin|Hge]; [lia | reflexivity].
Qed.

Lemma reflection_inside (x : list R) (decay : R) (d i k : nat) :
  (k < length x)%nat -> reflection x decay d i (i * d + k) = nth k x 0 * decay ^ i.
Proof.
  intros Hk. unfold reflection.
  destruct (Nat.leb_spec (i * d) (i * d + k)) as [_|Hlt]; [|lia].
  destruct (Nat.ltb_spec (i * d + k) (i * d + length x)) as [_|Hge]; [|lia].
  cbn [andb]. do 2 f_equal. lia.
Qed.

Lemma nth_echo_channel (x : list R) (decay : R) (d j : nat) :
  (j < length x + 5 * d)%nat ->
  nth j (echo_channel x decay d) 0
    = nth j x 0 + reflections x decay d [1; 2; 3; 4; 5]%nat j.
Proof.
  intros Hj. unfold echo_channel.
  apply (nth_map_seq (fun j => nth j x 0 + reflections x decay d [1; 2; 3; 4; 5]%nat j)).
  exact Hj.
Qed.

Ltac place_reflections :=
  unfold reflections; cbn [fold_right];
  repeat first [ rewrite reflection_inside by lia
               | rewrite reflection_outside by lia ].

(** X17.  In the array that [reverb] builds from a mono buffer of [N]
    samples, the samples before the first delay are the input's own.  When
    the delay is at least as long as the input the echoes do not overlap:
    echo [i] is an exact copy of the input scaled by [decay ^ i], starting at
    sample [i * delay_samples], and the samples between two copies are
    zero. *)
Theorem reverb_echo_copies (v : list R) (sr : Z) (decay : R) (delay_ms : Z) :
  (0 < sr)%Z ->
  (0 <= delay_ms)%Z ->
  let d := Z.to_nat (sr * delay_ms / 1000) in
  exists mix,
    reverb_mix (Mono v) sr decay delay_ms = Ok (Mono mix) /\
    length mix = (length v + 5 * d)%nat /\
    (forall j, (j < d)%nat -> nth j mix 0 = nth j v 0) /\
    ((length v <= d)%nat ->
       (forall i k, (1 <= i <= 5)%nat -> (k < length v)%nat ->
          nth (i * d + k) mix 0 = nth k v 0 * decay ^ i) /\
       (forall i k, (i <= 4)%nat -> (length v <= k < d)%nat ->
          nth (i * d + k) mix 0 = 0)).
Proof.
  intros Hsr Hdelay d.
  pose proof (reverb_mix_echo (Mono v) sr decay delay_ms I Hsr Hdelay) as Hmix.
  fold d in Hmix. cbn [map_channels] in Hmix.
  exists (echo_channel v decay d).
  split; [exact Hmix|]. split; [apply length_echo_channel|]. split.
  - intros j Hj. rewrite nth_echo_channel by lia.
    place_reflections. ring.
  - intros HN. split.
    + intros i k Hi Hk. rewrite nth_echo_channel by nia.
      rewrite (nth_overflow v) by nia.
      destruct i as [|[|[|[|[|[|i]]]]]]; try lia; place_reflections; ring.
    + intros i k Hi Hk. rewrite nth_echo_channel by nia.
      rewrite (nth_overflow v) by nia.
      destruct i as [|[|[|[|[|i]]]]]; try lia; place_reflections; ring.
Qed.

Lemma reverb_echo_copies_witness :
  exists mix,
    reverb_mix (Mono [1; 2]) 1000 (1 / 2) 50 = Ok (Mono mix) /\
    length mix = (2 + 5 * Z.to_nat (1000 * 50 / 1000))%nat.
Proof.
  destruct (reverb_echo_copies [1; 2] 1000 (1 / 2) 50) as (mix & Hmix & Hlen & _).
  - lia.
  - lia.
  - exists mix. split; assumption.
Defined.

(** ** Equalizer requests without gains *)

Lemma bounded_field_absent (params : dict) (name : String.string) (default lo hi : R) :
  dict_lookup params name = None ->
  bounded_field params name default lo hi = Ok default.
Proof. intros Hnone. unfold bounded_field. rewrite Hnone. reflexivity. Qed.

(** X18.  An equalizer request that names none of the seven bands takes
    0 dB for each of them, so the dispatcher returns the input itself and the
    pipeline returns the input peak-normalised, without any filtering. *)
Theorem apply_effect_equalizer_defaults `{DSPBackend} (signal : ndarray) (sr : Z)
    (params : dict) :
  Forall (fun band => dict_lookup params (fst band) = None) BANDS ->
  _apply_effect signal sr EQUALIZER params = Ok signal /\
  process_audio signal sr EQUALIZER params = peak_normalize signal default_target_peak.
Proof.
  intros Habsent.
  assert (Happly : _apply_effect signal sr EQUALIZER params = Ok signal).
  { unfold BANDS in Habsent.
    repeat match goal with
           | H : Forall _ (_ :: _) |- _ =>
               let Hhead := fresh "Hhead" in
               let Htail := fresh "Htail" in
               apply Forall_cons_iff in H; destruct H as [Hhead Htail];
               cbn [fst] in Hhead
           end.
    unfold _apply_effect.
    repeat (rewrite bounded_field_absent by assumption; cbn [bind]).
    unfold equalizer.
    replace (build_sos_sections _ sr) with (@nil (list R)); [reflexivity|].
    symmetry. apply fold_bands_inactive.
    apply Forall_forall. intros band Hin. apply (flat_band_inactive sr band Hin). }
  split; [exact Happly|].
  unfold process_audio. rewrite Happly. reflexivity.
Qed.

Lemma apply_effect_equalizer_defaults_witness :
  @_apply_effect identity_backend (Mono [1 / 2; 1 / 4]) 44100 EQUALIZER
     [("volume"%string, 3)]
    = Ok (Mono [1 / 2; 1 / 4]).
Proof.
  apply (@apply_effect_equalizer_defaults identity_backend (Mono [1 / 2; 1 / 4]) 44100
           [("volume"%string, 3)]).
  unfold BANDS. repeat (apply Forall_cons; [reflexivity|]). apply Forall_nil.
Defined.
